(** * MultivariableChainRuleViz: projection, depth-sorted rendering, camera

    A shallow embedding of [src/js/multivariable-chain-rule-standalone.js].

    Number model.  A JavaScript number is read as a real number: rounding,
    overflow and the non-finite values (Infinity, NaN) are not represented.
    The pipeline divides in two places only, [600 / z2] in [project3D] and
    the normalisation of the surface normal in the lighting; [/] below is
    the total division of [R].  A statement either holds whatever [a / 0]
    is taken to be, both of its sides containing the same quotient, or it
    carries the hypothesis that the divisor is not zero.

    Effects.  The methods of the class run in the monad [M]: they read and
    write the fields of the instance ([Viz]), append operations to the trace
    of the 2D drawing context ([CanvasOp]) and may throw ([Throw]). *)

From Stdlib Require Import Reals Lra Lia List String.
From Stdlib Require Import Sorting.Sorted Sorting.Permutation.
Import ListNotations.

Open Scope string_scope.
Open Scope list_scope.
Open Scope R_scope.

(** ** The scalar-field table ([this.functions]) *)

Module Surface.
Record t : Type := Build {
    f : R -> R -> R;
    dfdx : R -> R -> R;
    dfdy : R -> R -> R;
    name : string
  }.
End Surface.

Definition paraboloid : Surface.t :=
  {| Surface.f := fun x y => x * x + y * y;
     Surface.dfdx := fun x y => 2 * x;
     Surface.dfdy := fun x y => 2 * y;
     Surface.name := "z = x² + y²" |}.

Definition saddle : Surface.t :=
  {| Surface.f := fun x y => x * x - y * y;
     Surface.dfdx := fun x y => 2 * x;
     Surface.dfdy := fun x y => - 2 * y;
     Surface.name := "z = x² - y²" |}.

Definition waves : Surface.t :=
  {| Surface.f := fun x y => sin x * cos y;
     Surface.dfdx := fun x y => cos x * cos y;
     Surface.dfdy := fun x y => - sin x * sin y;
     Surface.name := "z = sin(x)cos(y)" |}.

(** [Math.pow(b, 2)] is [b ^ 2]. *)
Definition hill : Surface.t :=
  {| Surface.f := fun x y => 3 / (1 + x * x + y * y);
     Surface.dfdx := fun x y => - 6 * x / (1 + x * x + y * y) ^ 2;
     Surface.dfdy := fun x y => - 6 * y / (1 + x * x + y * y) ^ 2;
     Surface.name := "z = 3/(1+x²+y²)" |}.

(** The object literal the constructor stores in [this.functions]: its own
    properties, in source order. *)
Definition builtin_functions : list (string * Surface.t) :=
  [ ("paraboloid", paraboloid); ("saddle", saddle);
    ("waves", waves); ("hill", hill) ].

(** [this.functions] is an object literal, so a property read that finds no
    own property continues in [Object.prototype].  These are the property
    names ECMAScript defines there (section 20.1.3 and Annex B.2.2); each
    holds a function object, except [__proto__], an accessor that yields the
    prototype object itself. *)
Definition object_prototype_keys : list string :=
  [ "constructor"; "hasOwnProperty"; "isPrototypeOf"; "propertyIsEnumerable";
    "toLocaleString"; "toString"; "valueOf"; "__proto__";
    "__defineGetter__"; "__defineSetter__";
    "__lookupGetter__"; "__lookupSetter__" ].

(** What a property read [this.functions[key]] can evaluate to. *)
Inductive JsValue : Type :=
| VUndefined
| VSurface (fn : Surface.t)
| VInherited (key : string).

Fixpoint own_property (tbl : list (string * Surface.t)) (key : string)
  : option Surface.t :=
  match tbl with
  | [] => None
  | (k, fn) :: rest => if String.eqb k key then Some fn else own_property rest key
  end.

Definition get_property (tbl : list (string * Surface.t)) (key : string)
  : JsValue :=
  match own_property tbl key with
  | Some fn => VSurface fn
  | None =>
      if existsb (String.eqb key) object_prototype_keys
      then VInherited key else VUndefined
  end.

(** ToBoolean: objects and functions are truthy, [undefined] is falsy. *)
Definition truthy (v : JsValue) : bool :=
  match v with
  | VUndefined => false
  | VSurface _ | VInherited _ => true
  end.

(** ** Instance state *)

Record Viz : Type := mkViz {
  canvas_width : R;
  canvas_height : R;
  cameraAngleX : R;
  cameraAngleY : R;
  cameraDistance : R;
  isDragging : bool;
  lastMouseX : R;
  lastMouseY : R;
  pointX : R;
  pointY : R;
  tParam : R;
  directionAngle : R;
  magnitude : R;
  showGrid : bool;
  showCurve : bool;
  showTangentPlane : bool;
  showVectors : bool;
  currentFunction : string;
  functions : list (string * Surface.t)
}.

(** The constructor, for a canvas of the given size. *)
Definition new_viz (width height : R) : Viz :=
  {| canvas_width := width;
     canvas_height := height;
     cameraAngleX := 0.3;
     cameraAngleY := 0.8;
     cameraDistance := 8;
     isDragging := false;
     lastMouseX := 0;
     lastMouseY := 0;
     pointX := 0;
     pointY := 0;
     tParam := PI / 4;
     directionAngle := PI / 2;
     magnitude := 1.0;
     showGrid := true;
     showCurve := true;
     showTangentPlane := true;
     showVectors := true;
     currentFunction := "paraboloid";
     functions := builtin_functions |}.

(** Field assignments [this.field = v]. *)
Definition set_cameraAngleX (v : R) (s : Viz) : Viz :=
  {| canvas_width := canvas_width s;
     canvas_height := canvas_height s;
     cameraAngleX := v;
     cameraAngleY := cameraAngleY s;
     cameraDistance := cameraDistance s;
     isDragging := isDragging s;
     lastMouseX := lastMouseX s;
     lastMouseY := lastMouseY s;
     pointX := pointX s;
     pointY := pointY s;
     tParam := tParam s;
     directionAngle := directionAngle s;
     magnitude := magnitude s;
     showGrid := showGrid s;
     showCurve := showCurve s;
     showTangentPlane := showTangentPlane s;
     showVectors := showVectors s;
     currentFunction := currentFunction s;
     functions := functions s |}.

Definition set_cameraAngleY (v : R) (s : Viz) : Viz :=
  {| canvas_width := canvas_width s;
     canvas_height := canvas_height s;
     cameraAngleX := cameraAngleX s;
     cameraAngleY := v;
     cameraDistance := cameraDistance s;
     isDragging := isDragging s;
     lastMouseX := lastMouseX s;
     lastMouseY := lastMouseY s;
     pointX := pointX s;
     pointY := pointY s;
     tParam := tParam s;
     directionAngle := directionAngle s;
     magnitude := magnitude s;
     showGrid := showGrid s;
     showCurve := showCurve s;
     showTangentPlane := showTangentPlane s;
     showVectors := showVectors s;
     currentFunction := currentFunction s;
     functions := functions s |}.

Definition set_cameraDistance (v : R) (s : Viz) : Viz :=
  {| canvas_width := canvas_width s;
     canvas_height := canvas_height s;
     cameraAngleX := cameraAngleX s;
     cameraAngleY := cameraAngleY s;
     cameraDistance := v;
     isDragging := isDragging s;
     lastMouseX := lastMouseX s;
     lastMouseY := lastMouseY s;
     pointX := pointX s;
     pointY := pointY s;
     tParam := tParam s;
     directionAngle := directionAngle s;
     magnitude := magnitude s;
     showGrid := showGrid s;
     showCurve := showCurve s;
     showTangentPlane := showTangentPlane s;
     showVectors := showVectors s;
     currentFunction := currentFunction s;
     functions := functions s |}.

Definition set_isDragging (v : bool) (s : Viz) : Viz :=
  {| canvas_width := canvas_width s;
     canvas_height := canvas_height s;
     cameraAngleX := cameraAngleX s;
     cameraAngleY := cameraAngleY s;
     cameraDistance := cameraDistance s;
     isDragging := v;
     lastMouseX := lastMouseX s;
     lastMouseY := lastMouseY s;
     pointX := pointX s;
     pointY := pointY s;
     tParam := tParam s;
     directionAngle := directionAngle s;
     magnitude := magnitude s;
     showGrid := showGrid s;
     showCurve := showCurve s;
     showTangentPlane := showTangentPlane s;
     showVectors := showVectors s;
     currentFunction := currentFunction s;
     functions := functions s |}.

Definition set_lastMouseX (v : R) (s : Viz) : Viz :=
  {| canvas_width := canvas_width s;
     canvas_height := canvas_height s;
     cameraAngleX := cameraAngleX s;
     cameraAngleY := cameraAngleY s;
     cameraDistance := cameraDistance s;
     isDragging := isDragging s;
     lastMouseX := v;
     lastMouseY := lastMouseY s;
     pointX := pointX s;
     pointY := pointY s;
     tParam := tParam s;
     directionAngle := directionAngle s;
     magnitude := magnitude s;
     showGrid := showGrid s;
     showCurve := showCurve s;
     showTangentPlane := showTangentPlane s;
     showVectors := showVectors s;
     currentFunction := currentFunction s;
     functions := functions s |}.

Definition set_lastMouseY (v : R) (s : Viz) : Viz :=
  {| canvas_width := canvas_width s;
     canvas_height := canvas_height s;
     cameraAngleX := cameraAngleX s;
     cameraAngleY := cameraAngleY s;
     cameraDistance := cameraDistance s;
     isDragging := isDragging s;
     lastMouseX := lastMouseX s;
     lastMouseY := v;
     pointX := pointX s;
     pointY := pointY s;
     tParam := tParam s;
     directionAngle := directionAngle s;
     magnitude := magnitude s;
     showGrid := showGrid s;
     showCurve := showCurve s;
     showTangentPlane := showTangentPlane s;
     showVectors := showVectors s;
     currentFunction := currentFunction s;
     functions := functions s |}.

Definition set_pointX (v : R) (s : Viz) : Viz :=
  {| canvas_width := canvas_width s;
     canvas_height := canvas_height s;
     cameraAngleX := cameraAngleX s;
     cameraAngleY := cameraAngleY s;
     cameraDistance := cameraDistance s;
     isDragging := isDragging s;
     lastMouseX := lastMouseX s;
     lastMouseY := lastMouseY s;
     pointX := v;
     pointY := pointY s;
     tParam := tParam s;
     directionAngle := directionAngle s;
     magnitude := magnitude s;
     showGrid := showGrid s;
     showCurve := showCurve s;
     showTangentPlane := showTangentPlane s;
     showVectors := showVectors s;
     currentFunction := currentFunction s;
     functions := functions s |}.

Definition set_pointY (v : R) (s : Viz) : Viz :=
  {| canvas_width := canvas_width s;
     canvas_height := canvas_height s;
     cameraAngleX := cameraAngleX s;
     cameraAngleY := cameraAngleY s;
     cameraDistance := cameraDistance s;
     isDragging := isDragging s;
     lastMouseX := lastMouseX s;
     lastMouseY := lastMouseY s;
     pointX := pointX s;
     pointY := v;
     tParam := tParam s;
     directionAngle := directionAngle s;
     magnitude := magnitude s;
     showGrid := showGrid s;
     showCurve := showCurve s;
     showTangentPlane := showTangentPlane s;
     showVectors := showVectors s;
     currentFunction := currentFunction s;
     functions := functions s |}.

Definition set_directionAngle (v : R) (s : Viz) : Viz :=
  {| canvas_width := canvas_width s;
     canvas_height := canvas_height s;
     cameraAngleX := cameraAngleX s;
     cameraAngleY := cameraAngleY s;
     cameraDistance := cameraDistance s;
     isDragging := isDragging s;
     lastMouseX := lastMouseX s;
     lastMouseY := lastMouseY s;
     pointX := pointX s;
     pointY := pointY s;
     tParam := tParam s;
     directionAngle := v;
     magnitude := magnitude s;
     showGrid := showGrid s;
     showCurve := showCurve s;
     showTangentPlane := showTangentPlane s;
     showVectors := showVectors s;
     currentFunction := currentFunction s;
     functions := functions s |}.

Definition set_magnitude (v : R) (s : Viz) : Viz :=
  {| canvas_width := canvas_width s;
     canvas_height := canvas_height s;
     cameraAngleX := cameraAngleX s;
     cameraAngleY := cameraAngleY s;
     cameraDistance := cameraDistance s;
     isDragging := isDragging s;
     lastMouseX := lastMouseX s;
     lastMouseY := lastMouseY s;
     pointX := pointX s;
     pointY := pointY s;
     tParam := tParam s;
     directionAngle := directionAngle s;
     magnitude := v;
     showGrid := showGrid s;
     showCurve := showCurve s;
     showTangentPlane := showTangentPlane s;
     showVectors := showVectors s;
     currentFunction := currentFunction s;
     functions := functions s |}.

Definition set_showGrid (v : bool) (s : Viz) : Viz :=
  {| canvas_width := canvas_width s;
     canvas_height := canvas_height s;
     cameraAngleX := cameraAngleX s;
     cameraAngleY := cameraAngleY s;
     cameraDistance := cameraDistance s;
     isDragging := isDragging s;
     lastMouseX := lastMouseX s;
     lastMouseY := lastMouseY s;
     pointX := pointX s;
     pointY := pointY s;
     tParam := tParam s;
     directionAngle := directionAngle s;
     magnitude := magnitude s;
     showGrid := v;
     showCurve := showCurve s;
     showTangentPlane := showTangentPlane s;
     showVectors := showVectors s;
     currentFunction := currentFunction s;
     functions := functions s |}.

Definition set_showCurve (v : bool) (s : Viz) : Viz :=
  {| canvas_width := canvas_width s;
     canvas_height := canvas_height s;
     cameraAngleX := cameraAngleX s;
     cameraAngleY := cameraAngleY s;
     cameraDistance := cameraDistance s;
     isDragging := isDragging s;
     lastMouseX := lastMouseX s;
     lastMouseY := lastMouseY s;
     pointX := pointX s;
     pointY := pointY s;
     tParam := tParam s;
     directionAngle := directionAngle s;
     magnitude := magnitude s;
     showGrid := showGrid s;
     showCurve := v;
     showTangentPlane := showTangentPlane s;
     showVectors := showVectors s;
     currentFunction := currentFunction s;
     functions := functions s |}.

Definition set_showTangentPlane (v : bool) (s : Viz) : Viz :=
  {| canvas_width := canvas_width s;
     canvas_height := canvas_height s;
     cameraAngleX := cameraAngleX s;
     cameraAngleY := cameraAngleY s;
     cameraDistance := cameraDistance s;
     isDragging := isDragging s;
     lastMouseX := lastMouseX s;
     lastMouseY := lastMouseY s;
     pointX := pointX s;
     pointY := pointY s;
     tParam := tParam s;
     directionAngle := directionAngle s;
     magnitude := magnitude s;
     showGrid := showGrid s;
     showCurve := showCurve s;
     showTangentPlane := v;
     showVectors := showVectors s;
     currentFunction := currentFunction s;
     functions := functions s |}.

Definition set_showVectors (v : bool) (s : Viz) : Viz :=
  {| canvas_width := canvas_width s;
     canvas_height := canvas_height s;
     cameraAngleX := cameraAngleX s;
     cameraAngleY := cameraAngleY s;
     cameraDistance := cameraDistance s;
     isDragging := isDragging s;
     lastMouseX := lastMouseX s;
     lastMouseY := lastMouseY s;
     pointX := pointX s;
     pointY := pointY s;
     tParam := tParam s;
     directionAngle := directionAngle s;
     magnitude := magnitude s;
     showGrid := showGrid s;
     showCurve := showCurve s;
     showTangentPlane := showTangentPlane s;
     showVectors := v;
     currentFunction := currentFunction s;
     functions := functions s |}.

Definition set_currentFunction (v : string) (s : Viz) : Viz :=
  {| canvas_width := canvas_width s;
     canvas_height := canvas_height s;
     cameraAngleX := cameraAngleX s;
     cameraAngleY := cameraAngleY s;
     cameraDistance := cameraDistance s;
     isDragging := isDragging s;
     lastMouseX := lastMouseX s;
     lastMouseY := lastMouseY s;
     pointX := pointX s;
     pointY := pointY s;
     tParam := tParam s;
     directionAngle := directionAngle s;
     magnitude := magnitude s;
     showGrid := showGrid s;
     showCurve := showCurve s;
     showTangentPlane := showTangentPlane s;
     showVectors := showVectors s;
     currentFunction := v;
     functions := functions s |}.

(** ** The drawing context as a trace *)

(** A value assigned to [fillStyle] or [strokeStyle]: a string literal, or
    the template literal [`prefix${value}suffix`]. *)
Inductive Style : Type :=
| Literal (css : string)
| Template (prefix : string) (value : R) (suffix : string).

Inductive CanvasOp : Type :=
| ClearRect (x y w h : R)
| SetStrokeStyle (c : Style)
| SetFillStyle (c : Style)
| SetLineWidth (w : R)
| SetLineDash (segments : list R)
| BeginPath
| MoveTo (x y : R)
| LineTo (x y : R)
| ClosePath
| Arc (x y radius startAngle endAngle : R)
| Fill
| Stroke.

(** ** The method monad *)

Inductive JsError : Type := TypeError.

Inductive Outcome (A : Type) : Type :=
| Ok (a : A)
| Throw (e : JsError).
Arguments Ok {A} a.
Arguments Throw {A} e.

Definition M (A : Type) : Type := Viz -> Viz * list CanvasOp * Outcome A.

Definition ret {A} (a : A) : M A := fun s => (s, [], Ok a).

Definition bind {A B} (m : M A) (k : A -> M B) : M B :=
  fun s =>
    match m s with
    | (s1, t1, Ok a) =>
        match k a s1 with
        | (s2, t2, r) => (s2, t1 ++ t2, r)
        end
    | (s1, t1, Throw e) => (s1, t1, Throw e)
    end.

Notation "x <- m ;; k" := (bind m (fun x => k))
  (at level 61, m at next level, right associativity).
Notation "m ;; k" := (bind m (fun _ => k))
  (at level 61, right associativity).

Definition this : M Viz := fun s => (s, [], Ok s).
Definition assign (upd : Viz -> Viz) : M unit := fun s => (upd s, [], Ok tt).
Definition ctx (op : CanvasOp) : M unit := fun s => (s, [op], Ok tt).
Definition throw {A} (e : JsError) : M A := fun s => (s, [], Throw e).

(** [for (...) body] over the successive values of the loop variable, and
    [array.forEach(body)]. *)
Fixpoint for_each {A} (l : list A) (body : A -> M unit) : M unit :=
  match l with
  | [] => ret tt
  | a :: rest => body a ;; for_each rest body
  end.

(** A loop whose body pushes onto a local array: the pushed elements. *)
Fixpoint for_push {A B} (l : list A) (body : A -> M (list B)) : M (list B) :=
  match l with
  | [] => ret []
  | a :: rest => xs <- body a ;; ys <- for_push rest body ;; ret (xs ++ ys)
  end.

Definition state_of {A} (r : Viz * list CanvasOp * Outcome A) : Viz := fst (fst r).
Definition trace_of {A} (r : Viz * list CanvasOp * Outcome A) : list CanvasOp :=
  snd (fst r).
Definition outcome_of {A} (r : Viz * list CanvasOp * Outcome A) : Outcome A := snd r.

(** ** Camera projection *)

Module Point2D.
Record t : Type := Build { x : R; y : R; depth : R }.
End Point2D.

(** [project3D(x, y, z)], lines 80-104; it reads the camera fields and the
    canvas size and touches nothing. *)
Definition project3D (s : Viz) (x y z : R) : Point2D.t :=
  let cosY := cos (cameraAngleY s) in
  let sinY := sin (cameraAngleY s) in
  let x1 := x * cosY - z * sinY in
  let z1 := x * sinY + z * cosY in
  let y1 := y in
  let cosX := cos (cameraAngleX s) in
  let sinX := sin (cameraAngleX s) in
  let y2 := y1 * cosX - z1 * sinX in
  let z2 := y1 * sinX + z1 * cosX in
  let x2 := x1 in
  let z2 := z2 + cameraDistance s in
  let scale := 600 / z2 in
  let screenX := canvas_width s / 2 + x2 * scale in
  let screenY := canvas_height s / 2 - y2 * scale in
  {| Point2D.x := screenX; Point2D.y := screenY; Point2D.depth := z2 |}.

(** ** Parametric curve *)

Module CurvePoint.
Record t : Type := Build { x : R; y : R }.
End CurvePoint.

Module CurveDerivative.
Record t : Type := Build { dx : R; dy : R }.
End CurveDerivative.

Definition getCurvePoint (s : Viz) (t : R) : CurvePoint.t :=
  let angle := directionAngle s in
  let x := pointX s + magnitude s * cos angle * (t - tParam s) in
  let y := pointY s + magnitude s * sin angle * (t - tParam s) in
  {| CurvePoint.x := x; CurvePoint.y := y |}.

Definition getCurveDerivative : M CurveDerivative.t :=
  s <- this ;;
  ret {| CurveDerivative.dx := magnitude s * cos (directionAngle s);
         CurveDerivative.dy := magnitude s * sin (directionAngle s) |}.

(** ** Calls through the table entry *)

(** [func.f(a, b)], [func.dfdx(a, b)], [func.dfdy(a, b)]: when [func] is not
    an entry of the table the member read yields [undefined] (or fails on
    [undefined] itself) and the call throws a TypeError. *)
Definition call (member : Surface.t -> R -> R -> R) (func : JsValue) (a b : R)
  : M R :=
  match func with
  | VSurface fn => ret (member fn a b)
  | VInherited _ | VUndefined => throw TypeError
  end.

(** ** Loops over numbers *)

(** The values of [v] in [for (let v = start; v <= stop; v += step)]; the
    recursion is cut after [fuel] iterations. *)
Fixpoint range_le (fuel : nat) (v stop step : R) : list R :=
  match fuel with
  | O => []
  | S k => if Rle_dec v stop then v :: range_le k (v + step) stop step else []
  end.

(** A loop that carries a local variable from one iteration to the next. *)
Fixpoint for_local {A L} (l : list A) (local : L) (body : A -> L -> M L) : M L :=
  match l with
  | [] => ret local
  | a :: rest => local' <- body a local ;; for_local rest local' body
  end.

(** ** Axes, lines and grid *)

(** [drawLine3D], lines 121-131 ([width] defaults to 2; every caller passes it). *)
Definition drawLine3D (x1 y1 z1 x2 y2 z2 : R) (color : string) (width : R)
  : M unit :=
  s <- this ;;
  let p1 := project3D s x1 y1 z1 in
  let p2 := project3D s x2 y2 z2 in
  ctx (SetStrokeStyle (Literal color)) ;;
  ctx (SetLineWidth width) ;;
  ctx BeginPath ;;
  ctx (MoveTo (Point2D.x p1) (Point2D.y p1)) ;;
  ctx (LineTo (Point2D.x p2) (Point2D.y p2)) ;;
  ctx Stroke.

Definition drawAxes : M unit :=
  let axisLength := 3 in
  drawLine3D 0 0 0 axisLength 0 0 "#e94560" 2 ;;
  drawLine3D 0 0 0 0 axisLength 0 "#4ecca3" 2 ;;
  drawLine3D 0 0 0 0 0 axisLength "#00d9ff" 2.

Definition drawGrid : M unit :=
  s <- this ;;
  if negb (showGrid s) then ret tt else
  let gridSize := 2 in
  let step := 0.5 in
  ctx (SetStrokeStyle (Literal "rgba(74, 85, 104, 0.3)")) ;;
  ctx (SetLineWidth 1) ;;
  for_each (range_le 16 (- gridSize) gridSize step) (fun y =>
    let p1 := project3D s (- gridSize) y 0 in
    let p2 := project3D s gridSize y 0 in
    ctx BeginPath ;;
    ctx (MoveTo (Point2D.x p1) (Point2D.y p1)) ;;
    ctx (LineTo (Point2D.x p2) (Point2D.y p2)) ;;
    ctx Stroke) ;;
  for_each (range_le 16 (- gridSize) gridSize step) (fun x =>
    let p1 := project3D s x (- gridSize) 0 in
    let p2 := project3D s x gridSize 0 in
    ctx BeginPath ;;
    ctx (MoveTo (Point2D.x p1) (Point2D.y p1)) ;;
    ctx (LineTo (Point2D.x p2) (Point2D.y p2)) ;;
    ctx Stroke).

(** ** The surface: mesh, painter's sort, shading *)

Module Point3D.
Record t : Type := Build { x : R; y : R; z : R }.
End Point3D.

Module Triangle.
Record t : Type := Build { p1 : Point3D.t; p2 : Point3D.t; p3 : Point3D.t }.
End Triangle.

(** The body of the two nested loops, lines 176-197: the two triangles
    pushed for the grid square [(i, j)]. *)
Definition surfaceCell (func : JsValue) (range step : R) (i j : nat)
  : M (list Triangle.t) :=
  let x1 := - range + INR i * step in
  let y1 := - range + INR j * step in
  let x2 := x1 + step in
  let y2 := y1 + step in
  z1 <- call Surface.f func x1 y1 ;;
  z2 <- call Surface.f func x2 y1 ;;
  z3 <- call Surface.f func x1 y2 ;;
  z4 <- call Surface.f func x2 y2 ;;
  ret [ {| Triangle.p1 := Point3D.Build x1 y1 z1;
           Triangle.p2 := Point3D.Build x2 y1 z2;
           Triangle.p3 := Point3D.Build x1 y2 z3 |};
        {| Triangle.p1 := Point3D.Build x2 y1 z2;
           Triangle.p2 := Point3D.Build x2 y2 z4;
           Triangle.p3 := Point3D.Build x1 y2 z3 |} ].

(** "Create mesh triangles", lines 167-199. *)
Definition surfaceMesh (func : JsValue) : M (list Triangle.t) :=
  let resolution := 25%nat in
  let range := 2 in
  let step := (2 * range) / INR resolution in
  for_push (seq 0 resolution) (fun i =>
    for_push (seq 0 resolution) (fun j =>
      surfaceCell func range step i j)).

(** The first [forEach], lines 202-208: the triangle with its [depth]
    property set. *)
Definition centroidDepth (s : Viz) (tri : Triangle.t) : Triangle.t * R :=
  let avgZ := (Point3D.z (Triangle.p1 tri) + Point3D.z (Triangle.p2 tri)
               + Point3D.z (Triangle.p3 tri)) / 3 in
  let avgX := (Point3D.x (Triangle.p1 tri) + Point3D.x (Triangle.p2 tri)
               + Point3D.x (Triangle.p3 tri)) / 3 in
  let avgY := (Point3D.y (Triangle.p1 tri) + Point3D.y (Triangle.p2 tri)
               + Point3D.y (Triangle.p3 tri)) / 3 in
  let proj := project3D s avgX avgY avgZ in
  (tri, Point2D.depth proj).

(** [Array.prototype.sort(comparefn)].  For a consistent comparator
    ECMAScript fixes the result, the stable sorted permutation, and not the
    algorithm; this is the insertion sort that computes it: [a] is placed
    before the first [b] with [comparefn(a, b) <= 0]. *)
Fixpoint sort_insert {A} (comparefn : A -> A -> R) (a : A) (l : list A) : list A :=
  match l with
  | [] => [a]
  | b :: rest =>
      if Rle_dec (comparefn a b) 0 then a :: b :: rest
      else b :: sort_insert comparefn a rest
  end.

Definition array_sort {A} (comparefn : A -> A -> R) (l : list A) : list A :=
  fold_right (sort_insert comparefn) [] l.

(** Lines 219-228: the cross product of the edges [p2 - p1] and [p3 - p1]. *)
Definition normal (tri : Triangle.t) : R * R * R :=
  let v1x := Point3D.x (Triangle.p2 tri) - Point3D.x (Triangle.p1 tri) in
  let v1y := Point3D.y (Triangle.p2 tri) - Point3D.y (Triangle.p1 tri) in
  let v1z := Point3D.z (Triangle.p2 tri) - Point3D.z (Triangle.p1 tri) in
  let v2x := Point3D.x (Triangle.p3 tri) - Point3D.x (Triangle.p1 tri) in
  let v2y := Point3D.y (Triangle.p3 tri) - Point3D.y (Triangle.p1 tri) in
  let v2z := Point3D.z (Triangle.p3 tri) - Point3D.z (Triangle.p1 tri) in
  let nx := v1y * v2z - v1z * v2y in
  let ny := v1z * v2x - v1x * v2z in
  let nz := v1x * v2y - v1y * v2x in
  (nx, ny, nz).

(** Line 230. *)
Definition lightDot (tri : Triangle.t) : R :=
  let '(nx, ny, nz) := normal tri in
  Rmax 0.2 ((nx + ny + nz * 2) / sqrt (nx * nx + ny * ny + nz * nz) * 0.5 + 0.5).

(** The body of the second [forEach], lines 213-243. *)
Definition drawTriangle (tri : Triangle.t) : M unit :=
  s <- this ;;
  let p1 := project3D s (Point3D.x (Triangle.p1 tri)) (Point3D.y (Triangle.p1 tri))
              (Point3D.z (Triangle.p1 tri)) in
  let p2 := project3D s (Point3D.x (Triangle.p2 tri)) (Point3D.y (Triangle.p2 tri))
              (Point3D.z (Triangle.p2 tri)) in
  let p3 := project3D s (Point3D.x (Triangle.p3 tri)) (Point3D.y (Triangle.p3 tri))
              (Point3D.z (Triangle.p3 tri)) in
  ctx (SetFillStyle (Template "rgba(78, 204, 163, " (lightDot tri * 0.6) ")")) ;;
  ctx (SetStrokeStyle (Literal "rgba(78, 204, 163, 0.3)")) ;;
  ctx (SetLineWidth 0.5) ;;
  ctx BeginPath ;;
  ctx (MoveTo (Point2D.x p1) (Point2D.y p1)) ;;
  ctx (LineTo (Point2D.x p2) (Point2D.y p2)) ;;
  ctx (LineTo (Point2D.x p3) (Point2D.y p3)) ;;
  ctx ClosePath ;;
  ctx Fill ;;
  ctx Stroke.

(** The triangles in the order in which [drawSurface] paints them. *)
Definition paintOrder (s : Viz) (triangles : list Triangle.t)
  : list (Triangle.t * R) :=
  array_sort (fun a b => snd b - snd a) (map (centroidDepth s) triangles).

Definition drawSurface : M unit :=
  s <- this ;;
  let func := get_property (functions s) (currentFunction s) in
  triangles <- surfaceMesh func ;;
  for_each (paintOrder s triangles) (fun tri => drawTriangle (fst tri)).

(** ** Curve, tangent plane, arrows, point *)

Definition drawCurve : M unit :=
  s <- this ;;
  if negb (showCurve s) then ret tt else
  let func := get_property (functions s) (currentFunction s) in
  let tRange := 2 in
  let tStart := tParam s - tRange in
  let tEnd := tParam s + tRange in
  let steps := 100%nat in
  ctx (SetStrokeStyle (Literal "#ffe66d")) ;;
  ctx (SetLineWidth 3) ;;
  ctx BeginPath ;;
  for_local (seq 0 (steps + 1)%nat) true (fun i first =>
    let t := tStart + (tEnd - tStart) * INR i / INR steps in
    let pt := getCurvePoint s t in
    z <- call Surface.f func (CurvePoint.x pt) (CurvePoint.y pt) ;;
    let proj := project3D s (CurvePoint.x pt) (CurvePoint.y pt) z in
    if first : bool then
      ctx (MoveTo (Point2D.x proj) (Point2D.y proj)) ;; ret false
    else
      ctx (LineTo (Point2D.x proj) (Point2D.y proj)) ;; ret first) ;;
  ctx Stroke.

Definition drawTangentPlane : M unit :=
  s <- this ;;
  if negb (showTangentPlane s) then ret tt else
  let func := get_property (functions s) (currentFunction s) in
  z0 <- call Surface.f func (pointX s) (pointY s) ;;
  dzdx <- call Surface.dfdx func (pointX s) (pointY s) ;;
  dzdy <- call Surface.dfdy func (pointX s) (pointY s) ;;
  let size := 0.5 in
  let corners :=
    [ (pointX s - size, pointY s - size); (pointX s + size, pointY s - size);
      (pointX s + size, pointY s + size); (pointX s - size, pointY s + size) ] in
  let corners :=
    map (fun corner : R * R =>
           Point3D.Build (fst corner) (snd corner)
             (z0 + dzdx * (fst corner - pointX s) + dzdy * (snd corner - pointY s)))
        corners in
  let projCorners :=
    map (fun c => project3D s (Point3D.x c) (Point3D.y c) (Point3D.z c)) corners in
  let at_index i := nth i projCorners (Point2D.Build 0 0 0) in
  ctx (SetFillStyle (Literal "rgba(255, 230, 109, 0.3)")) ;;
  ctx (SetStrokeStyle (Literal "#ffe66d")) ;;
  ctx (SetLineWidth 2) ;;
  ctx BeginPath ;;
  ctx (MoveTo (Point2D.x (at_index 0%nat)) (Point2D.y (at_index 0%nat))) ;;
  for_each (seq 1 (List.length projCorners - 1)%nat) (fun i =>
    ctx (LineTo (Point2D.x (at_index i)) (Point2D.y (at_index i)))) ;;
  ctx ClosePath ;;
  ctx Fill ;;
  ctx Stroke.

(** [Math.atan2(y, x)] on real numbers (ECMAScript 21.3.2.8, without the
    signed zeros). *)
Definition atan2 (y x : R) : R :=
  if Rlt_dec 0 x then atan (y / x)
  else if Rlt_dec x 0 then
    if Rle_dec 0 y then atan (y / x) + PI else atan (y / x) - PI
  else if Rlt_dec 0 y then PI / 2
  else if Rlt_dec y 0 then - PI / 2
  else 0.

(** The free ends of the two arrowhead strokes, lines 378-392. *)
Definition arrowHead (p1 p2 : Point2D.t) : (R * R) * (R * R) :=
  let angle := atan2 (Point2D.y p2 - Point2D.y p1) (Point2D.x p2 - Point2D.x p1) in
  let arrowLength := 10 in
  let arrowAngle := PI / 6 in
  ((Point2D.x p2 - arrowLength * cos (angle - arrowAngle),
    Point2D.y p2 - arrowLength * sin (angle - arrowAngle)),
   (Point2D.x p2 - arrowLength * cos (angle + arrowAngle),
    Point2D.y p2 - arrowLength * sin (angle + arrowAngle))).

(** [drawArrow3D], lines 365-394 ([width] defaults to 2; every caller passes it). *)
Definition drawArrow3D (x1 y1 z1 x2 y2 z2 : R) (color : string) (width : R)
  : M unit :=
  s <- this ;;
  let p1 := project3D s x1 y1 z1 in
  let p2 := project3D s x2 y2 z2 in
  ctx (SetStrokeStyle (Literal color)) ;;
  ctx (SetLineWidth width) ;;
  ctx BeginPath ;;
  ctx (MoveTo (Point2D.x p1) (Point2D.y p1)) ;;
  ctx (LineTo (Point2D.x p2) (Point2D.y p2)) ;;
  ctx Stroke ;;
  let '(e1, e2) := arrowHead p1 p2 in
  ctx BeginPath ;;
  ctx (MoveTo (Point2D.x p2) (Point2D.y p2)) ;;
  ctx (LineTo (fst e1) (snd e1)) ;;
  ctx (MoveTo (Point2D.x p2) (Point2D.y p2)) ;;
  ctx (LineTo (fst e2) (snd e2)) ;;
  ctx Stroke.

Definition drawVectors : M unit :=
  s <- this ;;
  if negb (showVectors s) then ret tt else
  let func := get_property (functions s) (currentFunction s) in
  z0 <- call Surface.f func (pointX s) (pointY s) ;;
  dzdx <- call Surface.dfdx func (pointX s) (pointY s) ;;
  dzdy <- call Surface.dfdy func (pointX s) (pointY s) ;;
  deriv <- getCurveDerivative ;;
  let dxdt := CurveDerivative.dx deriv in
  let dydt := CurveDerivative.dy deriv in
  let scale := 0.5 in
  drawArrow3D (pointX s) (pointY s) z0
              (pointX s + scale) (pointY s) (z0 + dzdx * scale) "#ff9d76" 3 ;;
  drawArrow3D (pointX s) (pointY s) z0
              (pointX s) (pointY s + scale) (z0 + dzdy * scale) "#ff9d76" 3 ;;
  drawArrow3D (pointX s) (pointY s) 0
              (pointX s + dxdt * 0.5) (pointY s + dydt * 0.5) 0 "#ffe66d" 3 ;;
  let dzdt := dzdx * dxdt + dzdy * dydt in
  let endX := pointX s + dxdt * 0.5 in
  let endY := pointY s + dydt * 0.5 in
  let endZ := z0 + dzdt * 0.5 in
  drawArrow3D (pointX s) (pointY s) z0 endX endY endZ "#00d9ff" 4.

Definition drawPoint : M unit :=
  s <- this ;;
  let func := get_property (functions s) (currentFunction s) in
  z <- call Surface.f func (pointX s) (pointY s) ;;
  let proj := project3D s (pointX s) (pointY s) z in
  let projBase := project3D s (pointX s) (pointY s) 0 in
  ctx (SetStrokeStyle (Literal "rgba(233, 69, 96, 0.5)")) ;;
  ctx (SetLineWidth 2) ;;
  ctx (SetLineDash [5; 5]) ;;
  ctx BeginPath ;;
  ctx (MoveTo (Point2D.x projBase) (Point2D.y projBase)) ;;
  ctx (LineTo (Point2D.x proj) (Point2D.y proj)) ;;
  ctx Stroke ;;
  ctx (SetLineDash []) ;;
  ctx (SetFillStyle (Literal "#e94560")) ;;
  ctx BeginPath ;;
  ctx (Arc (Point2D.x proj) (Point2D.y proj) 8 0 (2 * PI)) ;;
  ctx Fill ;;
  ctx (SetStrokeStyle (Literal "#fff")) ;;
  ctx (SetLineWidth 2) ;;
  ctx Stroke ;;
  ctx (SetFillStyle (Literal "rgba(233, 69, 96, 0.7)")) ;;
  ctx BeginPath ;;
  ctx (Arc (Point2D.x projBase) (Point2D.y projBase) 6 0 (2 * PI)) ;;
  ctx Fill.

(** ** Chain rule values *)

Module ChainRuleValues.
Record t : Type := Build {
    pointX : R; pointY : R; z : R;
    dzdx : R; dzdy : R; dxdt : R; dydt : R; dzdt : R
  }.
End ChainRuleValues.

Definition getChainRuleValues : M ChainRuleValues.t :=
  s <- this ;;
  let func := get_property (functions s) (currentFunction s) in
  z <- call Surface.f func (pointX s) (pointY s) ;;
  dzdx <- call Surface.dfdx func (pointX s) (pointY s) ;;
  dzdy <- call Surface.dfdy func (pointX s) (pointY s) ;;
  deriv <- getCurveDerivative ;;
  let dzdt := dzdx * CurveDerivative.dx deriv + dzdy * CurveDerivative.dy deriv in
  s <- this ;;
  ret {| ChainRuleValues.pointX := pointX s;
         ChainRuleValues.pointY := pointY s;
         ChainRuleValues.z := z;
         ChainRuleValues.dzdx := dzdx;
         ChainRuleValues.dzdy := dzdy;
         ChainRuleValues.dxdt := CurveDerivative.dx deriv;
         ChainRuleValues.dydt := CurveDerivative.dy deriv;
         ChainRuleValues.dzdt := dzdt |}.

(** ** render *)

Definition render : M unit :=
  s <- this ;;
  ctx (ClearRect 0 0 (canvas_width s) (canvas_height s)) ;;
  drawGrid ;;
  drawAxes ;;
  drawSurface ;;
  drawTangentPlane ;;
  drawCurve ;;
  drawVectors ;;
  drawPoint.

(** ** Event handlers ([setupEventListeners], lines 465-498) *)

Definition on_mousedown (clientX clientY : R) : M unit :=
  assign (set_isDragging true) ;;
  assign (set_lastMouseX clientX) ;;
  assign (set_lastMouseY clientY).

Definition on_mousemove (clientX clientY : R) : M unit :=
  s <- this ;;
  if isDragging s then
    let dx := clientX - lastMouseX s in
    let dy := clientY - lastMouseY s in
    assign (fun s => set_cameraAngleY (cameraAngleY s + dx * 0.01) s) ;;
    assign (fun s => set_cameraAngleX (cameraAngleX s + dy * 0.01) s) ;;
    assign (fun s =>
      set_cameraAngleX (Rmax (- PI / 2) (Rmin (PI / 2) (cameraAngleX s))) s) ;;
    assign (set_lastMouseX clientX) ;;
    assign (set_lastMouseY clientY) ;;
    render
  else ret tt.

Definition on_mouseup : M unit :=
  assign (set_isDragging false).

(** [e.preventDefault()] acts on the page, not on the instance. *)
Definition on_wheel (deltaY : R) : M unit :=
  assign (fun s => set_cameraDistance (cameraDistance s + deltaY * 0.01) s) ;;
  assign (fun s => set_cameraDistance (Rmax 3 (Rmin 15 (cameraDistance s))) s) ;;
  render.

(** The events of the four listeners above.  [setupEventListeners] also
    registers a click listener (lines 500-529), which writes [pointX] and
    [pointY] and renders; it is not modelled: its two loops advance by 0.1
    in binary64, where they run 40 times and stop below 2, whereas over the
    reals they would run 41 times and reach 2. *)
Inductive Event : Type :=
| MouseDown (clientX clientY : R)
| MouseMove (clientX clientY : R)
| MouseUp
| Wheel (deltaY : R).

Definition handle (e : Event) : M unit :=
  match e with
  | MouseDown cx cy => on_mousedown cx cy
  | MouseMove cx cy => on_mousemove cx cy
  | MouseUp => on_mouseup
  | Wheel dy => on_wheel dy
  end.

(** The instance after each event of a sequence, in order.  An exception
    that escapes a handler is reported by the browser and the next event is
    dispatched on the instance as the handler left it. *)
Fixpoint dispatch (events : list Event) (s : Viz) : list Viz :=
  match events with
  | [] => []
  | e :: rest => let s' := state_of (handle e s) in s' :: dispatch rest s'
  end.

(** ** Public methods, lines 533-570 *)

Definition setFunction (funcName : string) : M unit :=
  s <- this ;;
  if truthy (get_property (functions s) funcName) then
    assign (set_currentFunction funcName) ;;
    render
  else ret tt.

Definition setPoint (x y : R) : M unit :=
  assign (set_pointX x) ;;
  assign (set_pointY y) ;;
  render.

(** [mag] defaults to [1.0] when the argument is omitted. *)
Definition setDirection (angle : R) (mag : option R) : M unit :=
  let mag := match mag with Some m => m | None => 1.0 end in
  assign (set_directionAngle angle) ;;
  assign (set_magnitude mag) ;;
  render.

Definition toggleGrid : M unit :=
  assign (fun s => set_showGrid (negb (showGrid s)) s) ;;
  render.

Definition toggleCurve : M unit :=
  assign (fun s => set_showCurve (negb (showCurve s)) s) ;;
  render.

Definition toggleTangentPlane : M unit :=
  assign (fun s => set_showTangentPlane (negb (showTangentPlane s)) s) ;;
  render.

Definition toggleVectors : M unit :=
  assign (fun s => set_showVectors (negb (showVectors s)) s) ;;
  render.

(** ** Notions used in the statements *)

(** The standard rotation of the plane by [theta], applied to a pair. *)
Definition rotate2D (theta : R) (p : R * R) : R * R :=
  (fst p * cos theta - snd p * sin theta, fst p * sin theta + snd p * cos theta).

(** The projection as section 4.1 of the specification words it: rotate
    [(x, z)] by the yaw, rotate [(y, z)] by the pitch, add the distance to
    [z], scale by [600 / depth] around the viewport centre with [y] flipped. *)
Definition project_steps (yaw pitch distance centerX centerY : R) (x y z : R)
  : Point2D.t :=
  let xz := rotate2D yaw (x, z) in
  let yz := rotate2D pitch (y, snd xz) in
  let depth := snd yz + distance in
  let scale := 600 / depth in
  {| Point2D.x := centerX + fst xz * scale;
     Point2D.y := centerY - fst yz * scale;
     Point2D.depth := depth |}.

(** The two triangles of the grid square with corners [(x1, y1)] and
    [(x2, y2)] on the graph of [fn]; they share the diagonal from
    [(x2, y1)] to [(x1, y2)]. *)
Definition lowerTriangle (fn : Surface.t) (x1 y1 x2 y2 : R) : Triangle.t :=
  {| Triangle.p1 := Point3D.Build x1 y1 (Surface.f fn x1 y1);
     Triangle.p2 := Point3D.Build x2 y1 (Surface.f fn x2 y1);
     Triangle.p3 := Point3D.Build x1 y2 (Surface.f fn x1 y2) |}.

Definition upperTriangle (fn : Surface.t) (x1 y1 x2 y2 : R) : Triangle.t :=
  {| Triangle.p1 := Point3D.Build x2 y1 (Surface.f fn x2 y1);
     Triangle.p2 := Point3D.Build x2 y2 (Surface.f fn x2 y2);
     Triangle.p3 := Point3D.Build x1 y2 (Surface.f fn x1 y2) |}.

(** The mesh of [fn] as a list: 25 by 25 squares of side 4/25 from -2. *)
Definition gridCoord (i : nat) : R := - 2 + INR i * (4 / 25).

Definition meshOf (fn : Surface.t) : list Triangle.t :=
  flat_map (fun i =>
    flat_map (fun j =>
      [ lowerTriangle fn (gridCoord i) (gridCoord j)
          (gridCoord i + 4 / 25) (gridCoord j + 4 / 25);
        upperTriangle fn (gridCoord i) (gridCoord j)
          (gridCoord i + 4 / 25) (gridCoord j + 4 / 25) ])
      (seq 0 25))
    (seq 0 25).

Definition vertices (tri : Triangle.t) : list Point3D.t :=
  [ Triangle.p1 tri; Triangle.p2 tri; Triangle.p3 tri ].

Definition onSurface (fn : Surface.t) (p : Point3D.t) : Prop :=
  Point3D.z p = Surface.f fn (Point3D.x p) (Point3D.y p).

Definition inDomain (p : Point3D.t) : Prop :=
  - 2 <= Point3D.x p <= 2 /\ - 2 <= Point3D.y p <= 2.

(** The flat plane z = 0 as a table entry. *)
Definition flatPlane : Surface.t :=
  {| Surface.f := fun _ _ => 0;
     Surface.dfdx := fun _ _ => 0;
     Surface.dfdy := fun _ _ => 0;
     Surface.name := "z = 0" |}.

(** The square of the paraboloid mesh around the origin, where the surface
    is level, and its lower triangle. *)
Definition levelTriangle : Triangle.t :=
  lowerTriangle paraboloid (gridCoord 12) (gridCoord 12)
    (gridCoord 12 + 4 / 25) (gridCoord 12 + 4 / 25).

(** A triangle whose normal is parallel to the light direction (1, 1, 2). *)
Definition litTriangle : Triangle.t :=
  {| Triangle.p1 := Point3D.Build 0 0 0;
     Triangle.p2 := Point3D.Build 2 0 (- 1);
     Triangle.p3 := Point3D.Build 0 2 (- 1) |}.

(** The world-space centroid of a triangle and its projected depth. *)
Definition centroid (tri : Triangle.t) : Point3D.t :=
  {| Point3D.x := (Point3D.x (Triangle.p1 tri) + Point3D.x (Triangle.p2 tri)
                   + Point3D.x (Triangle.p3 tri)) / 3;
     Point3D.y := (Point3D.y (Triangle.p1 tri) + Point3D.y (Triangle.p2 tri)
                   + Point3D.y (Triangle.p3 tri)) / 3;
     Point3D.z := (Point3D.z (Triangle.p1 tri) + Point3D.z (Triangle.p2 tri)
                   + Point3D.z (Triangle.p3 tri)) / 3 |}.

Definition projectedDepth (s : Viz) (p : Point3D.t) : R :=
  Point2D.depth (project3D s (Point3D.x p) (Point3D.y p) (Point3D.z p)).

(** The operations one triangle contributes to the trace. *)
Definition triangleOps (s : Viz) (tri : Triangle.t) : list CanvasOp :=
  trace_of (drawTriangle tri s).

(** What painting one triangle puts on the canvas, written out: the fill
    style with the intensity, the stroke style and width, the closed path
    through the three projected vertices, a fill and a stroke. *)
Definition trianglePaint (s : Viz) (tri : Triangle.t) : list CanvasOp :=
  let p1 := project3D s (Point3D.x (Triangle.p1 tri)) (Point3D.y (Triangle.p1 tri))
              (Point3D.z (Triangle.p1 tri)) in
  let p2 := project3D s (Point3D.x (Triangle.p2 tri)) (Point3D.y (Triangle.p2 tri))
              (Point3D.z (Triangle.p2 tri)) in
  let p3 := project3D s (Point3D.x (Triangle.p3 tri)) (Point3D.y (Triangle.p3 tri))
              (Point3D.z (Triangle.p3 tri)) in
  [ SetFillStyle (Template "rgba(78, 204, 163, " (lightDot tri * 0.6) ")");
    SetStrokeStyle (Literal "rgba(78, 204, 163, 0.3)");
    SetLineWidth 0.5;
    BeginPath;
    MoveTo (Point2D.x p1) (Point2D.y p1);
    LineTo (Point2D.x p2) (Point2D.y p2);
    LineTo (Point2D.x p3) (Point2D.y p3);
    ClosePath;
    Fill;
    Stroke ].

(** Euclidean length and (unsigned) angle of plane vectors. *)
Definition norm2 (u : R * R) : R := sqrt (fst u * fst u + snd u * snd u).

Definition angleBetween (u v : R * R) : R :=
  acos ((fst u * fst v + snd u * snd v) / (norm2 u * norm2 v)).

Definition vec (a b : R * R) : R * R := (fst b - fst a, snd b - snd a).

Definition screen (p : Point2D.t) : R * R := (Point2D.x p, Point2D.y p).

Definition cross (u v : R * R) : R := fst u * snd v - snd u * fst v.

(** The clamp bands of the camera. *)
Definition cameraClamped (s : Viz) : Prop :=
  - PI / 2 <= cameraAngleX s <= PI / 2 /\ 3 <= cameraDistance s <= 15.

(** The instance after a drag to [(clientX, clientY)] and after a wheel
    step of [deltaY]. *)
Definition rotated (clientX clientY : R) (s : Viz) : Viz :=
  set_lastMouseY clientY (set_lastMouseX clientX
    (set_cameraAngleX
       (Rmax (- PI / 2)
          (Rmin (PI / 2) (cameraAngleX s + (clientY - lastMouseY s) * 0.01)))
       (set_cameraAngleY (cameraAngleY s + (clientX - lastMouseX s) * 0.01) s))).

Definition zoomed (deltaY : R) (s : Viz) : Viz :=
  set_cameraDistance (Rmax 3 (Rmin 15 (cameraDistance s + deltaY * 0.01))) s.

(** A method that leaves every field of the instance as it found it. *)
Definition ReadOnly {A} (m : M A) : Prop := forall s, state_of (m s) = s.

(** A method that, besides, returns normally. *)
Definition Returns {A} (m : M A) : Prop :=
  forall s, exists t a, m s = (s, t, Ok a).

(** ** Further notions used in the statements *)

(** The world point of the surface above the evaluation point, for the
    entry [fn]. *)
Definition surfacePoint (s : Viz) (fn : Surface.t) : Point3D.t :=
  Point3D.Build (pointX s) (pointY s) (Surface.f fn (pointX s) (pointY s)).

(** The plane through [surfacePoint] with the slopes the entry reports: the
    height line 295 gives to a corner at [(x, y)]. *)
Definition tangentHeight (s : Viz) (fn : Surface.t) (x y : R) : R :=
  Surface.f fn (pointX s) (pointY s)
  + Surface.dfdx fn (pointX s) (pointY s) * (x - pointX s)
  + Surface.dfdy fn (pointX s) (pointY s) * (y - pointY s).

Definition onTangentPlane (s : Viz) (fn : Surface.t) (p : Point3D.t) : Prop :=
  Point3D.z p = tangentHeight s fn (Point3D.x p) (Point3D.y p).

Definition project (s : Viz) (p : Point3D.t) : Point2D.t :=
  project3D s (Point3D.x p) (Point3D.y p) (Point3D.z p).

(** The [i]-th sample of [drawCurve], projected. *)
Definition curveSample (s : Viz) (fn : Surface.t) (i : nat) : Point2D.t :=
  let t := tParam s - 2 + (tParam s + 2 - (tParam s - 2)) * INR i / INR 100 in
  let pt := getCurvePoint s t in
  project3D s (CurvePoint.x pt) (CurvePoint.y pt)
    (Surface.f fn (CurvePoint.x pt) (CurvePoint.y pt)).

(** The fields that describe the scene rather than the camera or the drag. *)
Definition sceneOf (s : Viz)
  : R * R * (R * R * R * R * R) * (bool * bool * bool * bool)
    * string * list (string * Surface.t) :=
  (canvas_width s, canvas_height s,
   (pointX s, pointY s, tParam s, directionAngle s, magnitude s),
   (showGrid s, showCurve s, showTangentPlane s, showVectors s),
   currentFunction s, functions s).

(** The outcome of each handler along a sequence of events. *)
Fixpoint outcomes (events : list Event) (s : Viz) : list (Outcome unit) :=
  match events with
  | [] => []
  | e :: rest =>
      outcome_of (handle e s) :: outcomes rest (state_of (handle e s))
  end.

Definition norm3 (x y z : R) : R := sqrt (x * x + y * y + z * z).

Definition translate (dx dy dz : R) (p : Point3D.t) : Point3D.t :=
  Point3D.Build (Point3D.x p + dx) (Point3D.y p + dy) (Point3D.z p + dz).

Definition scale (k : R) (p : Point3D.t) : Point3D.t :=
  Point3D.Build (k * Point3D.x p) (k * Point3D.y p) (k * Point3D.z p).

Definition mapTriangle (g : Point3D.t -> Point3D.t) (tri : Triangle.t)
  : Triangle.t :=
  {| Triangle.p1 := g (Triangle.p1 tri);
     Triangle.p2 := g (Triangle.p2 tri);
     Triangle.p3 := g (Triangle.p3 tri) |}.

(** The operations one arrow from [p] to [q] contributes to the trace. *)
Definition arrowOps (s : Viz) (p q : Point3D.t) (color : string) (width : R)
  : list CanvasOp :=
  trace_of (drawArrow3D (Point3D.x p) (Point3D.y p) (Point3D.z p)
              (Point3D.x q) (Point3D.y q) (Point3D.z q) color width s).

(** The operations a drawing method contributes on the instance [s]. *)
Definition layer (m : M unit) (s : Viz) : list CanvasOp := trace_of (m s).

(** The instance after the last of a sequence of events ([s] itself when
    the sequence is empty). *)
Definition after (events : list Event) (s : Viz) : Viz :=
  fold_left (fun s e => state_of (handle e s)) events s.

(** A drag: the button goes down at [(x0, y0)] and the mouse then moves
    through the given positions. *)
Definition drag (x0 y0 : R) (moves : list (R * R)) : list Event :=
  MouseDown x0 y0 :: map (fun p => MouseMove (fst p) (snd p)) moves.

(** The nine grid values -2, -1.5, ..., 2. *)
Definition gridTicks : list R := [ - 2; - 1.5; - 1; - 0.5; 0; 0.5; 1; 1.5; 2 ].

(** The operations of one grid segment between two world points. *)
Definition segmentOps (s : Viz) (p q : Point3D.t) : list CanvasOp :=
  [ BeginPath;
    MoveTo (Point2D.x (project s p)) (Point2D.y (project s p));
    LineTo (Point2D.x (project s q)) (Point2D.y (project s q));
    Stroke ].

(** * Properties *)

(** ** The monad *)

Section MonadFacts.
Context {A B : Type}.

Lemma bind_ok (m : M A) (k : A -> M B) s s1 t1 a :
    m s = (s1, t1, Ok a) ->
    bind m k s = (state_of (k a s1), t1 ++ trace_of (k a s1), outcome_of (k a s1)).
  Proof.
    intros E. unfold bind. rewrite E.
    destruct (k a s1) as [[s2 t2] r]. reflexivity.
  Qed.

Lemma bind_throw (m : M A) (k : A -> M B) s s1 t1 e :
    m s = (s1, t1, Throw e) -> bind m k s = (s1, t1, Throw e).
  Proof. intros E. unfold bind. now rewrite E. Qed.

Lemma ro_bind (m : M A) (k : A -> M B) :
    ReadOnly m -> (forall a, ReadOnly (k a)) -> ReadOnly (bind m k).
  Proof.
    intros Hm Hk s. specialize (Hm s). unfold bind.
    destruct (m s) as [[s1 t1] [a|e]]; cbn in Hm; subst s1; [|reflexivity].
    specialize (Hk a s). destruct (k a s) as [[s2 t2] r]. exact Hk.
  Qed.

Lemma returns_bind (m : M A) (k : A -> M B) :
    Returns m -> (forall a, Returns (k a)) -> Returns (bind m k).
  Proof.
    intros Hm Hk s. destruct (Hm s) as (t1 & a & E).
    destruct (Hk a s) as (t2 & b & E2).
    exists (t1 ++ t2), b. unfold bind. now rewrite E, E2.
  Qed.

Lemma returns_read_only (m : M A) : Returns m -> ReadOnly m.
  Proof. intros H s. destruct (H s) as (t & a & E). now rewrite E. Qed.
End MonadFacts.

Lemma ro_ret {A} (a : A) : ReadOnly (ret a).
Proof. intro s. reflexivity. Qed.

Lemma ro_this : ReadOnly this.
Proof. intro s. reflexivity. Qed.

Lemma ro_ctx op : ReadOnly (ctx op).
Proof. intro s. reflexivity. Qed.

Lemma ro_throw {A} e : ReadOnly (@throw A e).
Proof. intro s. reflexivity. Qed.

Lemma ro_call member func a b : ReadOnly (call member func a b).
Proof. destruct func; intro s; reflexivity. Qed.

Lemma ro_for_each {A} (l : list A) body :
  (forall a, ReadOnly (body a)) -> ReadOnly (for_each l body).
Proof.
  intros H. induction l as [|a l IH]; cbn.
  - apply ro_ret.
  - apply ro_bind; [apply H | intros _; exact IH].
Qed.

Lemma ro_for_push {A B} (l : list A) (body : A -> M (list B)) :
  (forall a, ReadOnly (body a)) -> ReadOnly (for_push l body).
Proof.
  intros H. induction l as [|a l IH]; cbn.
  - apply ro_ret.
  - apply ro_bind; [apply H | intros xs].
    apply ro_bind; [exact IH | intros ys; apply ro_ret].
Qed.

Lemma ro_for_local {A L} (l : list A) (body : A -> L -> M L) :
  (forall a x, ReadOnly (body a x)) -> forall x, ReadOnly (for_local l x body).
Proof.
  intros H. induction l as [|a l IH]; intros x; cbn.
  - apply ro_ret.
  - apply ro_bind; [apply H | intros x'; apply IH].
Qed.

Lemma returns_ret {A} (a : A) : Returns (ret a).
Proof. intro s. now exists [], a. Qed.

Lemma returns_this : Returns this.
Proof. intro s. now exists [], s. Qed.

Lemma returns_ctx op : Returns (ctx op).
Proof. intro s. now exists [op], tt. Qed.

Lemma returns_for_each {A} (l : list A) body :
  (forall a, Returns (body a)) -> Returns (for_each l body).
Proof.
  intros H. induction l as [|a l IH]; cbn.
  - apply returns_ret.
  - apply returns_bind; [apply H | intros _; exact IH].
Qed.

(** Decompose a goal [ReadOnly m] or [Returns m] along the structure of [m]. *)
Ltac structural :=
  repeat first
    [ progress cbv zeta
    | apply ro_for_each; intro
    | apply ro_for_push; intro
    | apply ro_for_local; intros
    | apply returns_for_each; intro
    | apply ro_ret | apply ro_this | apply ro_ctx | apply ro_throw | apply ro_call
    | apply returns_ret | apply returns_this | apply returns_ctx
    | apply ro_bind; [ | intro ]
    | apply returns_bind; [ | intro ]
    | match goal with
      | |- ReadOnly (if ?b then _ else _) => destruct b
      | |- Returns (if ?b then _ else _) => destruct b
      | |- ReadOnly (let '(_, _) := ?p in _) => destruct p
      | |- Returns (let '(_, _) := ?p in _) => destruct p
      end
    | assumption ].

(** The grid loops run over nine values and end by their own condition. *)
Lemma grid_loop_values :
  range_le 16 (- 2) 2 0.5 = [ - 2; - 1.5; - 1; - 0.5; 0; 0.5; 1; 1.5; 2 ].
Proof.
  unfold range_le.
  repeat match goal with
         | |- context [Rle_dec ?a ?b] => destruct (Rle_dec a b); try lra
         end.
  repeat (f_equal; try lra).
Qed.

Lemma returns_drawLine3D x1 y1 z1 x2 y2 z2 color width :
  Returns (drawLine3D x1 y1 z1 x2 y2 z2 color width).
Proof. unfold drawLine3D. structural. Qed.

Lemma returns_drawAxes : Returns drawAxes.
Proof. unfold drawAxes. structural; apply returns_drawLine3D. Qed.

Lemma returns_drawGrid : Returns drawGrid.
Proof. unfold drawGrid. structural. Qed.

Lemma ro_drawTriangle tri : ReadOnly (drawTriangle tri).
Proof. unfold drawTriangle. structural. Qed.

Lemma ro_surfaceMesh func : ReadOnly (surfaceMesh func).
Proof. unfold surfaceMesh, surfaceCell. structural. Qed.

Lemma ro_drawSurface : ReadOnly drawSurface.
Proof.
  unfold drawSurface. structural;
    first [apply ro_surfaceMesh | apply ro_drawTriangle].
Qed.

Lemma ro_drawTangentPlane : ReadOnly drawTangentPlane.
Proof. unfold drawTangentPlane. structural. Qed.

Lemma ro_drawCurve : ReadOnly drawCurve.
Proof. unfold drawCurve. structural. Qed.

Lemma ro_getCurveDerivative : ReadOnly getCurveDerivative.
Proof. unfold getCurveDerivative. structural. Qed.

Lemma ro_drawArrow3D x1 y1 z1 x2 y2 z2 color width :
  ReadOnly (drawArrow3D x1 y1 z1 x2 y2 z2 color width).
Proof. unfold drawArrow3D. structural. Qed.

Lemma ro_drawVectors : ReadOnly drawVectors.
Proof.
  unfold drawVectors. structural;
    first [apply ro_getCurveDerivative | apply ro_drawArrow3D].
Qed.

Lemma ro_drawPoint : ReadOnly drawPoint.
Proof. unfold drawPoint. structural. Qed.

Lemma ro_render : ReadOnly render.
Proof.
  unfold render. structural;
    first [ apply returns_read_only; first [apply returns_drawGrid | apply returns_drawAxes]
          | apply ro_drawSurface | apply ro_drawTangentPlane | apply ro_drawCurve
          | apply ro_drawVectors | apply ro_drawPoint ].
Qed.

(** Evaluation of the primitive steps. *)
Lemma bind_this {B} (k : Viz -> M B) s : bind this k s = k s s.
Proof. unfold bind, this. now destruct (k s s) as [[s2 t2] r]. Qed.

Lemma bind_ret {A B} (a : A) (k : A -> M B) s : bind (ret a) k s = k a s.
Proof. unfold bind, ret. now destruct (k a s) as [[s2 t2] r]. Qed.

Lemma bind_assign {B} upd (k : unit -> M B) s : bind (assign upd) k s = k tt (upd s).
Proof. unfold bind, assign. now destruct (k tt (upd s)) as [[s2 t2] r]. Qed.

Lemma bind_ctx {B} op (k : unit -> M B) s :
  bind (ctx op) k s
  = (state_of (k tt s), op :: trace_of (k tt s), outcome_of (k tt s)).
Proof. unfold bind, ctx. now destruct (k tt s) as [[s2 t2] r]. Qed.

Lemma bind_call_surface {B} member fn a b (k : R -> M B) s :
  bind (call member (VSurface fn) a b) k s = k (member fn a b) s.
Proof. cbn [call]. apply bind_ret. Qed.

Lemma bind_getCurveDerivative {B} (k : CurveDerivative.t -> M B) s :
  bind getCurveDerivative k s
  = k {| CurveDerivative.dx := magnitude s * cos (directionAngle s);
         CurveDerivative.dy := magnitude s * sin (directionAngle s) |} s.
Proof.
  unfold getCurveDerivative.
  unfold bind at 1. rewrite bind_this. cbn [ret].
  now destruct (k _ s) as [[s2 t2] r].
Qed.

(** ** Camera projection *)

Lemma PI2_gt_03 : 0.3 < PI / 2.
Proof. pose proof PI2_1. lra. Qed.

(** C1. [project3D] is the yaw rotation of (x,z), then the pitch rotation
    of (y,z), then the distance offset on z and the perspective scale
    600/depth about the viewport centre, with the returned depth the offset
    z; and with yaw = 0, pitch = 0, distance = 8 the origin projects to the
    viewport centre with depth 8. *)
Theorem project3D_follows_the_four_steps (s : Viz) (x y z : R) :
  project3D s x y z
  = project_steps (cameraAngleY s) (cameraAngleX s) (cameraDistance s)
      (canvas_width s / 2) (canvas_height s / 2) x y z
  /\ Point2D.depth (project3D s x y z)
     = snd (rotate2D (cameraAngleX s) (y, snd (rotate2D (cameraAngleY s) (x, z))))
       + cameraDistance s
  /\ project3D (set_cameraAngleY 0 (set_cameraAngleX 0 (set_cameraDistance 8 s)))
       0 0 0
     = {| Point2D.x := canvas_width s / 2;
          Point2D.y := canvas_height s / 2;
          Point2D.depth := 8 |}.
Proof.
  split; [reflexivity | split; [reflexivity |]].
  unfold project3D. cbn [cameraAngleX cameraAngleY cameraDistance canvas_width
    canvas_height set_cameraAngleY set_cameraAngleX set_cameraDistance].
  rewrite cos_0, sin_0. f_equal; lra.
Qed.

(** ** Clamp invariants *)

Lemma new_viz_clamped width height : cameraClamped (new_viz width height).
Proof.
  unfold cameraClamped. cbn. pose proof PI2_gt_03. pose proof PI_RGT_0.
  repeat split; lra.
Qed.

Lemma clamp_between lo hi v : lo <= hi -> lo <= Rmax lo (Rmin hi v) <= hi.
Proof.
  intros H. split.
  - apply Rmax_l.
  - apply Rmax_lub; [exact H | apply Rmin_l].
Qed.

Lemma clamp_above lo hi v : lo <= hi -> hi <= v -> Rmax lo (Rmin hi v) = hi.
Proof. intros H1 H2. rewrite Rmin_left by exact H2. now apply Rmax_right. Qed.

Lemma on_mousemove_eq clientX clientY s :
  on_mousemove clientX clientY s
  = if isDragging s then render (rotated clientX clientY s) else (s, [], Ok tt).
Proof.
  unfold on_mousemove. rewrite bind_this.
  destruct (isDragging s); [|reflexivity].
  cbv zeta. now rewrite !bind_assign.
Qed.

Lemma on_wheel_eq deltaY s : on_wheel deltaY s = render (zoomed deltaY s).
Proof. unfold on_wheel. now rewrite !bind_assign. Qed.

Lemma on_mousedown_eq clientX clientY s :
  on_mousedown clientX clientY s
  = (set_lastMouseY clientY (set_lastMouseX clientX (set_isDragging true s)),
     [], Ok tt).
Proof. unfold on_mousedown. now rewrite !bind_assign. Qed.

Lemma handle_clamped e s : cameraClamped s -> cameraClamped (state_of (handle e s)).
Proof.
  intros [Hp Hd]. pose proof PI_RGT_0 as Hpi.
  destruct e as [cx cy|cx cy| |dy]; cbn [handle].
  - rewrite on_mousedown_eq. split; assumption.
  - rewrite on_mousemove_eq. destruct (isDragging s).
    + rewrite ro_render. split; [|exact Hd].
      cbn [rotated cameraAngleX set_lastMouseY set_lastMouseX set_cameraAngleX].
      apply clamp_between. lra.
    + split; assumption.
  - split; assumption.
  - rewrite on_wheel_eq, ro_render. split; [exact Hp|].
    cbn [zoomed cameraDistance set_cameraDistance]. apply clamp_between. lra.
Qed.

Lemma dispatch_clamped events :
  forall s, cameraClamped s -> Forall cameraClamped (dispatch events s).
Proof.
  induction events as [|e rest IH]; intros s Hs; cbn [dispatch].
  - constructor.
  - constructor; [|apply IH]; now apply handle_clamped.
Qed.

(** C3. Whatever mouse and wheel events arrive, and however large their
    deltas, after every one of them the pitch is in [-PI/2, PI/2] and the
    distance in [3, 15]. *)
Theorem camera_stays_clamped (width height : R) (events : list Event) :
  Forall cameraClamped (dispatch events (new_viz width height)).
Proof. apply dispatch_clamped, new_viz_clamped. Qed.

(** The clamps are reached: a drag of 1000 pixels down pins the pitch at
    PI/2 and a wheel delta of 100000 pins the distance at 15. *)
Lemma clamps_are_reached :
  map (fun s => (cameraAngleX s, cameraDistance s))
      (dispatch [MouseDown 0 0; MouseMove 0 1000; Wheel 100000] (new_viz 900 700))
  = [ (0.3, 8); (PI / 2, 8); (PI / 2, 15) ].
Proof.
  cbn [dispatch map handle]. rewrite on_mousedown_eq.
  cbn [state_of fst]. rewrite on_mousemove_eq.
  cbn [isDragging set_lastMouseY set_lastMouseX set_isDragging].
  rewrite ro_render, on_wheel_eq, ro_render.
  cbn. pose proof PI_4. pose proof PI_RGT_0.
  rewrite !clamp_above by lra. reflexivity.
Qed.

(** ** render and the mutators *)

Lemma drawLine3D_eq x1 y1 z1 x2 y2 z2 color width s :
  drawLine3D x1 y1 z1 x2 y2 z2 color width s
  = (s,
     [ SetStrokeStyle (Literal color); SetLineWidth width; BeginPath;
       MoveTo (Point2D.x (project3D s x1 y1 z1)) (Point2D.y (project3D s x1 y1 z1));
       LineTo (Point2D.x (project3D s x2 y2 z2)) (Point2D.y (project3D s x2 y2 z2));
       Stroke ],
     Ok tt).
Proof. unfold drawLine3D. rewrite bind_this. cbv zeta. now rewrite !bind_ctx. Qed.

Lemma drawAxes_strokes s : exists t, drawAxes s = (s, t, Ok tt) /\ In Stroke t.
Proof.
  unfold drawAxes. cbv zeta.
  rewrite (bind_ok _ _ _ _ _ _ (drawLine3D_eq _ _ _ _ _ _ _ _ _)).
  rewrite (bind_ok _ _ _ _ _ _ (drawLine3D_eq _ _ _ _ _ _ _ _ _)).
  rewrite drawLine3D_eq. cbn [state_of trace_of outcome_of fst snd].
  eexists. split; [reflexivity|].
  cbn [app]. do 5 right. now left.
Qed.

Lemma render_clears_then_draws s :
  exists rest,
    trace_of (render s)
    = ClearRect 0 0 (canvas_width s) (canvas_height s) :: rest
    /\ In Stroke rest.
Proof.
  unfold render. rewrite bind_this, bind_ctx. cbn [trace_of fst snd].
  eexists. split; [reflexivity|].
  destruct (returns_drawGrid s) as (t1 & [] & E1).
  rewrite (bind_ok _ _ _ _ _ _ E1). cbn [fst snd].
  apply in_or_app. right.
  destruct (drawAxes_strokes s) as (t2 & E2 & Hin).
  rewrite (bind_ok _ _ _ _ _ _ E2). cbn [fst snd].
  apply in_or_app. now left.
Qed.

Lemma surfaceCell_throws func range step i j s :
  (forall fn, func <> VSurface fn) ->
  surfaceCell func range step i j s = (s, [], Throw TypeError).
Proof.
  intros H. unfold surfaceCell. cbv zeta. apply bind_throw.
  destruct func as [|fn|key]; [reflexivity| |reflexivity].
  now destruct (H fn).
Qed.

Lemma surfaceMesh_throws func s :
  (forall fn, func <> VSurface fn) -> surfaceMesh func s = (s, [], Throw TypeError).
Proof.
  intros H. unfold surfaceMesh. cbv zeta.
  change (seq 0 25) with (0%nat :: seq 1 24). cbn [for_push].
  apply bind_throw, bind_throw. now apply surfaceCell_throws.
Qed.

Lemma drawSurface_throws s :
  (forall fn, get_property (functions s) (currentFunction s) <> VSurface fn) ->
  drawSurface s = (s, [], Throw TypeError).
Proof.
  intros H. unfold drawSurface. rewrite bind_this. cbv zeta.
  apply bind_throw. now apply surfaceMesh_throws.
Qed.

(** [render] on an instance whose current key does not name a table entry:
    the canvas is cleared, grid and axes are drawn, and [drawSurface] throws. *)
Lemma render_throws s :
  (forall fn, get_property (functions s) (currentFunction s) <> VSurface fn) ->
  exists rest,
    render s
    = (s, ClearRect 0 0 (canvas_width s) (canvas_height s) :: rest, Throw TypeError).
Proof.
  intros H. unfold render. rewrite bind_this, bind_ctx.
  destruct (returns_drawGrid s) as (t1 & [] & E1).
  destruct (returns_drawAxes s) as (t2 & [] & E2).
  rewrite (bind_ok _ _ _ _ _ _ E1), (bind_ok _ _ _ _ _ _ E2).
  rewrite (bind_throw _ _ _ _ _ _ (drawSurface_throws s H)).
  cbn. eexists. reflexivity.
Qed.

Lemma setFunction_eq funcName s :
  setFunction funcName s
  = if truthy (get_property (functions s) funcName)
    then render (set_currentFunction funcName s)
    else (s, [], Ok tt).
Proof.
  unfold setFunction. rewrite bind_this.
  destruct (truthy _); [|reflexivity]. now rewrite bind_assign.
Qed.

(** A key that is neither in the table nor inherited is ignored. *)
Lemma setFunction_undefined_key funcName s :
  get_property (functions s) funcName = VUndefined ->
  setFunction funcName s = (s, [], Ok tt).
Proof. intros E. now rewrite setFunction_eq, E. Qed.

(** C8 (defect). [setFunction("toString")] on a fresh instance: the key is
    not one of the four, yet the guard [this.functions[funcName]] finds the
    inherited [Object.prototype.toString]; the current-function field is
    overwritten, the canvas is cleared and drawn on, and [render] throws a
    TypeError in [drawSurface]. *)
Theorem setFunction_inherited_key_is_not_ignored (width height : R) :
  let r := setFunction "toString" (new_viz width height) in
  own_property builtin_functions "toString" = None
  /\ currentFunction (state_of r) = "toString"
  /\ state_of r <> new_viz width height
  /\ outcome_of r = Throw TypeError
  /\ exists rest, trace_of r = ClearRect 0 0 width height :: rest.
Proof.
  cbv zeta. rewrite setFunction_eq.
  change (truthy (get_property (functions (new_viz width height)) "toString"))
    with true. cbv iota.
  destruct (render_throws (set_currentFunction "toString" (new_viz width height)))
    as (rest & E).
  { intros fn. discriminate. }
  rewrite E. cbn [state_of outcome_of trace_of fst snd].
  repeat split.
  - intros C. apply (f_equal currentFunction) in C. discriminate C.
  - now exists rest.
Qed.

(** ** Chain rule values *)

(** C9. For an instance whose current key names the table entry [fn],
    [getChainRuleValues] returns dxdt = m cos(theta), dydt = m sin(theta) and
    dzdt = dfdx(pointX, pointY) dxdt + dfdy(pointX, pointY) dydt, leaves the
    instance as it was and draws nothing. *)
Theorem getChainRuleValues_is_the_chain_rule (s : Viz) (fn : Surface.t) :
  get_property (functions s) (currentFunction s) = VSurface fn ->
  exists v,
    getChainRuleValues s = (s, [], Ok v)
    /\ ChainRuleValues.dxdt v = magnitude s * cos (directionAngle s)
    /\ ChainRuleValues.dydt v = magnitude s * sin (directionAngle s)
    /\ ChainRuleValues.dzdt v
       = Surface.dfdx fn (pointX s) (pointY s) * ChainRuleValues.dxdt v
         + Surface.dfdy fn (pointX s) (pointY s) * ChainRuleValues.dydt v
    /\ ChainRuleValues.pointX v = pointX s
    /\ ChainRuleValues.pointY v = pointY s
    /\ ChainRuleValues.z v = Surface.f fn (pointX s) (pointY s)
    /\ ChainRuleValues.dzdx v = Surface.dfdx fn (pointX s) (pointY s)
    /\ ChainRuleValues.dzdy v = Surface.dfdy fn (pointX s) (pointY s).
Proof.
  intros E. unfold getChainRuleValues.
  rewrite bind_this. cbv zeta. rewrite E.
  rewrite !bind_call_surface, bind_getCurveDerivative, bind_this.
  eexists. split; [reflexivity|]. cbn. repeat split.
Qed.

Lemma getChainRuleValues_is_the_chain_rule_witness :
  get_property (functions (new_viz 900 700)) (currentFunction (new_viz 900 700))
  = VSurface paraboloid
  /\ exists v,
      getChainRuleValues (new_viz 900 700) = (new_viz 900 700, [], Ok v)
      /\ ChainRuleValues.dzdt v
         = 2 * 0 * ChainRuleValues.dxdt v + 2 * 0 * ChainRuleValues.dydt v.
Proof.
  split; [reflexivity|].
  destruct (getChainRuleValues_is_the_chain_rule (new_viz 900 700) paraboloid)
    as (v & E & _ & _ & Hz & _); [reflexivity|].
  exists v. split; [exact E | exact Hz].
Defined.

(** *** The derivative along the curve *)

Lemma derivable_pt_lim_value f x l l' :
  l = l' -> derivable_pt_lim f x l -> derivable_pt_lim f x l'.
Proof. now intros ->. Qed.

Section AlongTheLine.
Variables px py a b t0 : R.

Let X (u : R) : R := px + a * (u - t0).
Let Y (u : R) : R := py + b * (u - t0).

Lemma line_derivative p c u : derivable_pt_lim (fun v => p + c * (v - t0)) u c.
Proof.
  intros eps Heps. exists (mkposreal 1 Rlt_0_1). intros h Hh _.
  replace ((p + c * (u + h - t0) - (p + c * (u - t0))) / h - c) with 0
    by (field; exact Hh).
  now rewrite Rabs_R0.
Qed.

Lemma X_at_t0 : X t0 = px.
Proof. unfold X. ring. Qed.

Lemma Y_at_t0 : Y t0 = py.
Proof. unfold Y. ring. Qed.

Lemma paraboloid_along_line :
  derivable_pt_lim (fun u => Surface.f paraboloid (X u) (Y u)) t0
    (Surface.dfdx paraboloid px py * a + Surface.dfdy paraboloid px py * b).
Proof.
  change (derivable_pt_lim (X * X + Y * Y)%F t0
            (Surface.dfdx paraboloid px py * a + Surface.dfdy paraboloid px py * b)).
  eapply derivable_pt_lim_value;
    [| apply derivable_pt_lim_plus; apply derivable_pt_lim_mult;
       apply line_derivative ].
  rewrite X_at_t0, Y_at_t0. cbn [paraboloid Surface.dfdx Surface.dfdy]. ring.
Qed.

Lemma saddle_along_line :
  derivable_pt_lim (fun u => Surface.f saddle (X u) (Y u)) t0
    (Surface.dfdx saddle px py * a + Surface.dfdy saddle px py * b).
Proof.
  change (derivable_pt_lim (X * X - Y * Y)%F t0
            (Surface.dfdx saddle px py * a + Surface.dfdy saddle px py * b)).
  eapply derivable_pt_lim_value;
    [| apply derivable_pt_lim_minus; apply derivable_pt_lim_mult;
       apply line_derivative ].
  rewrite X_at_t0, Y_at_t0. cbn [saddle Surface.dfdx Surface.dfdy]. ring.
Qed.

Lemma waves_along_line :
  derivable_pt_lim (fun u => Surface.f waves (X u) (Y u)) t0
    (Surface.dfdx waves px py * a + Surface.dfdy waves px py * b).
Proof.
  change (derivable_pt_lim (comp sin X * comp cos Y)%F t0
            (Surface.dfdx waves px py * a + Surface.dfdy waves px py * b)).
  eapply derivable_pt_lim_value;
    [| apply derivable_pt_lim_mult;
       (eapply derivable_pt_lim_comp;
        [apply line_derivative
        | first [apply derivable_pt_lim_sin | apply derivable_pt_lim_cos]]) ].
  unfold comp. rewrite X_at_t0, Y_at_t0. cbn [waves Surface.dfdx Surface.dfdy]. ring.
Qed.

Lemma hill_along_line :
  derivable_pt_lim (fun u => Surface.f hill (X u) (Y u)) t0
    (Surface.dfdx hill px py * a + Surface.dfdy hill px py * b).
Proof.
  change (derivable_pt_lim (fct_cte 3 / (fct_cte 1 + X * X + Y * Y))%F t0
            (Surface.dfdx hill px py * a + Surface.dfdy hill px py * b)).
  assert (Hpos : 0 < 1 + px * px + py * py) by nra.
  eapply derivable_pt_lim_value;
    [| apply derivable_pt_lim_div;
       [ apply derivable_pt_lim_const
       | apply derivable_pt_lim_plus;
         [ apply derivable_pt_lim_plus;
           [apply derivable_pt_lim_const | apply derivable_pt_lim_mult; apply line_derivative]
         | apply derivable_pt_lim_mult; apply line_derivative ]
       | unfold plus_fct, mult_fct, fct_cte; rewrite X_at_t0, Y_at_t0; lra ] ].
  unfold plus_fct, mult_fct, fct_cte, Rsqr. rewrite X_at_t0, Y_at_t0.
  cbn [hill Surface.dfdx Surface.dfdy]. field. lra.
Qed.
End AlongTheLine.

(** X26. For the four built-in surfaces the value [dzdt] is the derivative at
    [tParam] of the height along the parametric curve. *)
Lemma builtin_dzdt_is_the_derivative (s : Viz) (fn : Surface.t) :
  In fn (map snd builtin_functions) ->
  derivable_pt_lim
    (fun t => Surface.f fn (CurvePoint.x (getCurvePoint s t))
                (CurvePoint.y (getCurvePoint s t)))
    (tParam s)
    (Surface.dfdx fn (pointX s) (pointY s) * (magnitude s * cos (directionAngle s))
     + Surface.dfdy fn (pointX s) (pointY s) * (magnitude s * sin (directionAngle s))).
Proof.
  intros [<-|[<-|[<-|[<-|[]]]]].
  - apply paraboloid_along_line.
  - apply saddle_along_line.
  - apply waves_along_line.
  - apply hill_along_line.
Qed.

(** ** Mutators *)

Lemma setPoint_clears_first s x y :
  exists rest,
    trace_of (setPoint x y s)
    = ClearRect 0 0 (canvas_width s) (canvas_height s) :: rest.
Proof.
  unfold setPoint. rewrite !bind_assign.
  destruct (render_clears_then_draws (set_pointY y (set_pointX x s)))
    as (rest & E & _).
  now exists rest.
Qed.

(** C6 (as the code has it). Each mutation entry point assigns its fields,
    the camera ones clamped, and then calls [render] once on the updated
    instance; [render] changes no field, clears the canvas and draws.  A
    mouse move outside a drag and a [setFunction] whose key reads as
    [undefined] do nothing at all. *)
Theorem mutators_assign_then_render (s : Viz) :
  (forall clientX clientY,
     on_mousemove clientX clientY s
     = if isDragging s then render (rotated clientX clientY s) else (s, [], Ok tt))
  /\ (forall deltaY, on_wheel deltaY s = render (zoomed deltaY s))
  /\ (forall funcName,
        setFunction funcName s
        = if truthy (get_property (functions s) funcName)
          then render (set_currentFunction funcName s)
          else (s, [], Ok tt))
  /\ (forall x y, setPoint x y s = render (set_pointY y (set_pointX x s)))
  /\ (forall angle mag,
        setDirection angle mag s
        = render (set_magnitude (match mag with Some m => m | None => 1.0 end)
                    (set_directionAngle angle s)))
  /\ toggleGrid s = render (set_showGrid (negb (showGrid s)) s)
  /\ toggleCurve s = render (set_showCurve (negb (showCurve s)) s)
  /\ toggleTangentPlane s
     = render (set_showTangentPlane (negb (showTangentPlane s)) s)
  /\ toggleVectors s = render (set_showVectors (negb (showVectors s)) s)
  /\ state_of (render s) = s
  /\ exists rest,
       trace_of (render s)
       = ClearRect 0 0 (canvas_width s) (canvas_height s) :: rest
       /\ In Stroke rest.
Proof.
  split; [intros; apply on_mousemove_eq|].
  split; [intros; apply on_wheel_eq|].
  split; [intros; apply setFunction_eq|].
  split; [intros; unfold setPoint; now rewrite !bind_assign|].
  split; [intros; unfold setDirection; cbv zeta; now rewrite !bind_assign|].
  split; [unfold toggleGrid; now rewrite bind_assign|].
  split; [unfold toggleCurve; now rewrite bind_assign|].
  split; [unfold toggleTangentPlane; now rewrite bind_assign|].
  split; [unfold toggleVectors; now rewrite bind_assign|].
  split; [apply ro_render | apply render_clears_then_draws].
Qed.

(** C6 as stated fails: [setPoint(1, 1)] on a fresh instance issues
    drawing operations. *)
Lemma setPoint_draws : trace_of (setPoint 1 1 (new_viz 900 700)) <> [].
Proof.
  destruct (setPoint_clears_first (new_viz 900 700) 1 1) as (rest & E).
  rewrite E. discriminate.
Qed.

(** ** The mesh *)

Lemma for_push_pure {A B} (g : A -> list B) (body : A -> M (list B)) l s :
  (forall a, body a s = (s, [], Ok (g a))) ->
  for_push l body s = (s, [], Ok (flat_map g l)).
Proof.
  intros H. induction l as [|a l IH]; cbn [for_push flat_map].
  - reflexivity.
  - rewrite (bind_ok _ _ _ _ _ _ (H a)).
    rewrite (bind_ok _ _ _ _ _ _ IH). reflexivity.
Qed.

Lemma step_is_4_25 : 2 * 2 / INR 25 = 4 / 25.
Proof. replace (INR 25) with 25 by (simpl; lra). lra. Qed.

Lemma surfaceMesh_eq fn s : surfaceMesh (VSurface fn) s = (s, [], Ok (meshOf fn)).
Proof.
  unfold surfaceMesh, meshOf. cbv zeta. rewrite step_is_4_25.
  apply for_push_pure. intros i. apply for_push_pure. intros j.
  unfold surfaceCell. cbv zeta. rewrite !bind_call_surface. reflexivity.
Qed.

Lemma length_flat_map_const {A B} (g : A -> list B) k l :
  (forall a, List.length (g a) = k) ->
  List.length (flat_map g l) = (k * List.length l)%nat.
Proof.
  intros H. induction l as [|a l IH]; cbn [flat_map List.length].
  - lia.
  - rewrite length_app, H, IH. lia.
Qed.

Lemma meshOf_length fn : List.length (meshOf fn) = 1250%nat.
Proof.
  unfold meshOf.
  rewrite (length_flat_map_const _ 50).
  - now rewrite length_seq.
  - intros i. rewrite (length_flat_map_const _ 2).
    + now rewrite length_seq.
    + reflexivity.
Qed.

Lemma in_meshOf fn tri :
  In tri (meshOf fn) <->
  exists i j, (i < 25)%nat /\ (j < 25)%nat /\
    (tri = lowerTriangle fn (gridCoord i) (gridCoord j)
             (gridCoord i + 4 / 25) (gridCoord j + 4 / 25)
     \/ tri = upperTriangle fn (gridCoord i) (gridCoord j)
                (gridCoord i + 4 / 25) (gridCoord j + 4 / 25)).
Proof.
  unfold meshOf. rewrite in_flat_map. split.
  - intros (i & Hi & H). rewrite in_flat_map in H. destruct H as (j & Hj & H).
    apply in_seq in Hi, Hj. exists i, j.
    split; [lia | split; [lia|]].
    destruct H as [H|[H|[]]]; [left | right]; now symmetry.
  - intros (i & j & Hi & Hj & H). exists i.
    split; [apply in_seq; lia|].
    rewrite in_flat_map. exists j. split; [apply in_seq; lia|].
    destruct H as [-> | ->]; [now left | right; now left].
Qed.

Lemma gridCoord_bounds i :
  (i < 25)%nat -> - 2 <= gridCoord i /\ gridCoord i + 4 / 25 <= 2.
Proof.
  intros H. unfold gridCoord.
  assert (0 <= INR i) by apply pos_INR.
  assert (INR i <= 24).
  { replace 24 with (INR 24) by (simpl; lra). apply le_INR. lia. }
  lra.
Qed.

(** C10. The mesh constructor returns, without drawing or changing the
    instance, exactly 1250 triangles: for each of the 25 x 25 squares of side
    4/25 of [-2,2] x [-2,2] the two triangles on either side of the diagonal
    from (x2,y1) to (x1,y2), with every vertex on the graph of f. *)
Theorem surfaceMesh_is_the_25_by_25_grid (fn : Surface.t) (s : Viz) :
  exists triangles,
    surfaceMesh (VSurface fn) s = (s, [], Ok triangles)
    /\ List.length triangles = (2 * 25 * 25)%nat
    /\ (forall tri,
          In tri triangles <->
          exists i j, (i < 25)%nat /\ (j < 25)%nat /\
            (tri = lowerTriangle fn (gridCoord i) (gridCoord j)
                     (gridCoord i + 4 / 25) (gridCoord j + 4 / 25)
             \/ tri = upperTriangle fn (gridCoord i) (gridCoord j)
                        (gridCoord i + 4 / 25) (gridCoord j + 4 / 25)))
    /\ Forall (fun tri =>
         Forall (fun p => onSurface fn p /\ inDomain p) (vertices tri)) triangles.
Proof.
  exists (meshOf fn).
  split; [apply surfaceMesh_eq|].
  split; [apply meshOf_length|].
  split; [apply in_meshOf|].
  apply Forall_forall. intros tri Hin.
  apply in_meshOf in Hin. destruct Hin as (i & j & Hi & Hj & H).
  pose proof (gridCoord_bounds i Hi). pose proof (gridCoord_bounds j Hj).
  unfold vertices, onSurface, inDomain.
  destruct H as [-> | ->];
    cbn [lowerTriangle upperTriangle Triangle.p1 Triangle.p2 Triangle.p3
         Point3D.x Point3D.y Point3D.z];
    repeat (apply Forall_cons;
            [split; [reflexivity | cbn [Point3D.x Point3D.y]; lra] |]);
    apply Forall_nil.
Qed.

(** ** Array.prototype.sort with a descending numeric key *)

Section DescendingSort.
Context {A : Type} (key : A -> R).

Let comparefn (a b : A) : R := key b - key a.
Let before (a b : A) : Prop := key a >= key b.

Lemma sort_insert_perm a l : Permutation (sort_insert comparefn a l) (a :: l).
  Proof.
    induction l as [|b l IH]; cbn [sort_insert].
    - apply Permutation_refl.
    - destruct (Rle_dec (comparefn a b) 0).
      + apply Permutation_refl.
      + eapply perm_trans; [apply perm_skip, IH | apply perm_swap].
  Qed.

Lemma array_sort_perm l : Permutation (array_sort comparefn l) l.
  Proof.
    induction l as [|a l IH]; cbn.
    - constructor.
    - eapply perm_trans; [apply sort_insert_perm | now apply perm_skip].
  Qed.

Lemma sort_insert_sorted a l :
    StronglySorted before l -> StronglySorted before (sort_insert comparefn a l).
  Proof.
    induction 1 as [|b l Hs IH Hb]; cbn [sort_insert].
    - repeat constructor.
    - destruct (Rle_dec (comparefn a b) 0) as [Hle|Hgt]; unfold comparefn in *.
      + constructor; [now constructor|].
        constructor; [unfold before; lra|].
        eapply Forall_impl; [|exact Hb]. unfold before. intros c Hc. lra.
      + constructor; [exact IH|].
        eapply Permutation_Forall; [apply Permutation_sym, sort_insert_perm|].
        constructor; [unfold before; lra | exact Hb].
  Qed.

Lemma array_sort_sorted l : StronglySorted before (array_sort comparefn l).
  Proof.
    induction l as [|a l IH]; cbn.
    - constructor.
    - now apply sort_insert_sorted.
  Qed.

Lemma sorted_last_is_least l d :
    StronglySorted before l -> forall a, In a l -> key (last l d) <= key a.
  Proof.
    induction 1 as [|b l Hs IH Hb]; intros a Hin; [destruct Hin|].
    destruct l as [|c l'].
    - destruct Hin as [<-|[]]. cbn. lra.
    - change (last (b :: c :: l') d) with (last (c :: l') d).
      destruct Hin as [<-|Hin]; [|now apply IH].
      assert (Hlast : In (last (c :: l') d) (c :: l')).
      { destruct (exists_last (l := c :: l')) as (l0 & z & E); [discriminate|].
        rewrite E, last_last. apply in_or_app. right. now left. }
      rewrite Forall_forall in Hb. specialize (Hb _ Hlast). unfold before in Hb. lra.
  Qed.
End DescendingSort.

(** ** Painter's order *)

Lemma for_each_trace {A} (body : A -> M unit) l s :
  (forall a, Returns (body a)) ->
  for_each l body s = (s, flat_map (fun a => trace_of (body a s)) l, Ok tt).
Proof.
  intros H. induction l as [|a l IH]; cbn [for_each flat_map].
  - reflexivity.
  - destruct (H a s) as (t & [] & E).
    rewrite (bind_ok _ _ _ _ _ _ E), IH, E. reflexivity.
Qed.

Lemma returns_drawTriangle tri : Returns (drawTriangle tri).
Proof. unfold drawTriangle. structural. Qed.

Lemma triangleOps_eq s tri :
  triangleOps s tri
  = let p1 := project3D s (Point3D.x (Triangle.p1 tri)) (Point3D.y (Triangle.p1 tri))
                (Point3D.z (Triangle.p1 tri)) in
    let p2 := project3D s (Point3D.x (Triangle.p2 tri)) (Point3D.y (Triangle.p2 tri))
                (Point3D.z (Triangle.p2 tri)) in
    let p3 := project3D s (Point3D.x (Triangle.p3 tri)) (Point3D.y (Triangle.p3 tri))
                (Point3D.z (Triangle.p3 tri)) in
    [ SetFillStyle (Template "rgba(78, 204, 163, " (lightDot tri * 0.6) ")");
      SetStrokeStyle (Literal "rgba(78, 204, 163, 0.3)");
      SetLineWidth 0.5; BeginPath;
      MoveTo (Point2D.x p1) (Point2D.y p1);
      LineTo (Point2D.x p2) (Point2D.y p2);
      LineTo (Point2D.x p3) (Point2D.y p3);
      ClosePath; Fill; Stroke ].
Proof.
  unfold triangleOps, drawTriangle. rewrite bind_this. reflexivity.
Qed.

Lemma centroidDepth_eq s tri :
  centroidDepth s tri = (tri, projectedDepth s (centroid tri)).
Proof. reflexivity. Qed.

Lemma drawSurface_eq s fn :
  get_property (functions s) (currentFunction s) = VSurface fn ->
  drawSurface s
  = (s, flat_map (fun d => triangleOps s (fst d)) (paintOrder s (meshOf fn)), Ok tt).
Proof.
  intros E. unfold drawSurface. rewrite bind_this. cbv zeta. rewrite E.
  rewrite (bind_ok _ _ _ _ _ _ (surfaceMesh_eq fn s)).
  rewrite for_each_trace by (intros d; apply returns_drawTriangle).
  reflexivity.
Qed.

Lemma drawSurface_paint s fn :
  get_property (functions s) (currentFunction s) = VSurface fn ->
  drawSurface s
  = (s, flat_map (fun d => trianglePaint s (fst d)) (paintOrder s (meshOf fn)),
     Ok tt).
Proof.
  intros E. rewrite (drawSurface_eq s fn E).
  assert (H : forall l : list (Triangle.t * R),
            flat_map (fun d => triangleOps s (fst d)) l
            = flat_map (fun d => trianglePaint s (fst d)) l).
  { intros l. apply flat_map_ext. intros d. apply triangleOps_eq. }
  now rewrite H.
Qed.

(** C2. On an instance whose current key names the entry [fn], whatever the
    camera, [drawSurface] paints the triangles of the mesh, each once, in
    non-increasing order of the depth of the projected centroid: the trace
    is, triangle after triangle in that order, the ten operations that fill
    and stroke the projected triangle; so the triangle painted last has the
    least such depth of the whole mesh. *)
Theorem drawSurface_paints_far_to_near (s : Viz) (fn : Surface.t) :
  get_property (functions s) (currentFunction s) = VSurface fn ->
  let drawn := paintOrder s (meshOf fn) in
  drawSurface s = (s, flat_map (fun d => trianglePaint s (fst d)) drawn, Ok tt)
  /\ Permutation drawn
       (map (fun tri => (tri, projectedDepth s (centroid tri))) (meshOf fn))
  /\ StronglySorted (fun a b => snd a >= snd b) drawn
  /\ forall d tri,
       In tri (meshOf fn) -> snd (last drawn d) <= projectedDepth s (centroid tri).
Proof.
  intros E drawn.
  split; [now apply drawSurface_paint|].
  assert (Hperm : Permutation drawn
            (map (fun tri => (tri, projectedDepth s (centroid tri))) (meshOf fn))).
  { unfold drawn, paintOrder. apply (array_sort_perm snd). }
  assert (Hsorted : StronglySorted (fun a b => snd a >= snd b) drawn).
  { unfold drawn, paintOrder. apply (array_sort_sorted snd). }
  split; [exact Hperm | split; [exact Hsorted|]].
  intros d tri Hin.
  apply (sorted_last_is_least snd drawn d Hsorted (tri, projectedDepth s (centroid tri))).
  eapply Permutation_in; [apply Permutation_sym, Hperm|].
  apply in_map_iff. exists tri. split; [reflexivity | exact Hin].
Qed.

Lemma drawSurface_paints_far_to_near_witness :
  get_property (functions (new_viz 900 700)) (currentFunction (new_viz 900 700))
  = VSurface paraboloid
  /\ drawSurface (new_viz 900 700)
     = (new_viz 900 700,
        flat_map (fun d => trianglePaint (new_viz 900 700) (fst d))
          (paintOrder (new_viz 900 700) (meshOf paraboloid)),
        Ok tt)
  /\ StronglySorted (fun a b => snd a >= snd b)
       (paintOrder (new_viz 900 700) (meshOf paraboloid)).
Proof.
  split; [reflexivity|].
  destruct (drawSurface_paints_far_to_near (new_viz 900 700) paraboloid eq_refl)
    as (Htrace & _ & Hsorted & _).
  split; [exact Htrace | exact Hsorted].
Defined.

(** ** Shading *)

Lemma light_direction_bound a b c :
  a + b + c * 2 <= sqrt 6 * sqrt (a * a + b * b + c * c).
Proof.
  rewrite <- sqrt_mult by nra.
  destruct (Rle_dec (a + b + c * 2) 0) as [Hneg|Hpos].
  - pose proof (sqrt_pos (6 * (a * a + b * b + c * c))). lra.
  - rewrite <- (sqrt_square (a + b + c * 2)) at 1 by lra.
    pose proof (Rle_0_sqr (a - b)) as H1.
    pose proof (Rle_0_sqr (2 * a - c)) as H2.
    pose proof (Rle_0_sqr (2 * b - c)) as H3.
    pose proof (Rle_0_sqr (a + b + c * 2)) as H4.
    unfold Rsqr in H1, H2, H3, H4.
    apply sqrt_le_1; lra.
Qed.

Lemma norm_positive a b c :
  (a, b, c) <> (0, 0, 0) -> 0 < sqrt (a * a + b * b + c * c).
Proof.
  intros H. apply sqrt_lt_R0.
  destruct (Req_dec a 0) as [->|Ha]; [|nra].
  destruct (Req_dec b 0) as [->|Hb]; [|nra].
  destruct (Req_dec c 0) as [->|Hc]; [|nra].
  now destruct H.
Qed.

Lemma intensity_bounds nx ny nz :
  (nx, ny, nz) <> (0, 0, 0) ->
  0.2 <= Rmax 0.2 ((nx + ny + nz * 2) / sqrt (nx * nx + ny * ny + nz * nz) * 0.5 + 0.5)
      <= 0.5 + 0.5 * sqrt 6.
Proof.
  intros Hn.
  pose proof (norm_positive nx ny nz Hn) as Hpos.
  pose proof (light_direction_bound nx ny nz) as Hcs.
  pose proof (sqrt_pos 6) as H6.
  split; [apply Rmax_l|].
  apply Rmax_lub; [lra|].
  assert ((nx + ny + nz * 2) / sqrt (nx * nx + ny * ny + nz * nz) <= sqrt 6).
  { apply (Rmult_le_reg_r (sqrt (nx * nx + ny * ny + nz * nz))); [exact Hpos|].
    unfold Rdiv. rewrite Rmult_assoc, Rinv_l by lra. lra. }
  lra.
Qed.

(** C4 (as the code has it). For a triangle whose normal is not the zero
    vector the intensity lies between 0.2 and 0.5 + 0.5 sqrt 6: the light
    vector (1, 1, 2) is not normalised, so the ceiling is not 1. *)
Theorem lightDot_bounds (tri : Triangle.t) :
  normal tri <> (0, 0, 0) ->
  0.2 <= lightDot tri <= 0.5 + 0.5 * sqrt 6.
Proof.
  unfold lightDot. destruct (normal tri) as [[nx ny] nz].
  apply intensity_bounds.
Qed.

Lemma lightDot_bounds_witness :
  normal litTriangle <> (0, 0, 0)
  /\ 0.2 <= lightDot litTriangle <= 0.5 + 0.5 * sqrt 6.
Proof.
  assert (H : normal litTriangle <> (0, 0, 0)).
  { unfold normal, litTriangle. cbn [Triangle.p1 Triangle.p2 Triangle.p3
      Point3D.x Point3D.y Point3D.z].
    intros C. apply (f_equal snd) in C. cbn [snd] in C. lra. }
  split; [exact H | exact (lightDot_bounds litTriangle H)].
Defined.

(** The ceiling is attained. *)
Lemma lightDot_ceiling_attained : lightDot litTriangle = 0.5 + 0.5 * sqrt 6.
Proof.
  unfold lightDot, normal, litTriangle.
  cbn [Triangle.p1 Triangle.p2 Triangle.p3 Point3D.x Point3D.y Point3D.z].
  replace ((0 - 0) * (-1 - 0) - (-1 - 0) * (2 - 0)) with 2 by lra.
  replace ((-1 - 0) * (0 - 0) - (2 - 0) * (-1 - 0)) with 2 by lra.
  replace ((2 - 0) * (2 - 0) - (0 - 0) * (0 - 0)) with 4 by lra.
  replace (2 * 2 + 2 * 2 + 4 * 4) with (2 * 2 * 6) by lra.
  rewrite sqrt_mult, sqrt_square by lra.
  assert (H6 : 0 < sqrt 6) by (apply sqrt_lt_R0; lra).
  assert (Hsq : sqrt 6 * sqrt 6 = 6) by (apply sqrt_sqrt; lra).
  replace ((2 + 2 + 4 * 2) / (2 * sqrt 6) * 0.5 + 0.5) with (0.5 + 0.5 * sqrt 6).
  - apply Rmax_right. lra.
  - replace (2 + 2 + 4 * 2) with (2 * (sqrt 6 * sqrt 6)) by lra. field. lra.
Qed.

Lemma level_normal x1 y1 z :
  normal {| Triangle.p1 := Point3D.Build x1 y1 z;
            Triangle.p2 := Point3D.Build (x1 + 4 / 25) y1 z;
            Triangle.p3 := Point3D.Build x1 (y1 + 4 / 25) z |}
  = (0, 0, 16 / 625)
  /\ normal {| Triangle.p1 := Point3D.Build (x1 + 4 / 25) y1 z;
               Triangle.p2 := Point3D.Build (x1 + 4 / 25) (y1 + 4 / 25) z;
               Triangle.p3 := Point3D.Build x1 (y1 + 4 / 25) z |}
     = (0, 0, 16 / 625).
Proof.
  unfold normal.
  cbn [Triangle.p1 Triangle.p2 Triangle.p3 Point3D.x Point3D.y Point3D.z].
  split; repeat apply f_equal2; field.
Qed.

Lemma level_lightDot tri : normal tri = (0, 0, 16 / 625) -> lightDot tri = 1.5.
Proof.
  intros E. unfold lightDot. rewrite E.
  replace (0 * 0 + 0 * 0 + 16 / 625 * (16 / 625))
    with (16 / 625 * (16 / 625)) by lra.
  rewrite sqrt_square by lra.
  replace ((0 + 0 + 16 / 625 * 2) / (16 / 625) * 0.5 + 0.5) with 1.5 by lra.
  apply Rmax_right. lra.
Qed.

Lemma levelTriangle_in_mesh : In levelTriangle (meshOf paraboloid).
Proof. apply in_meshOf. exists 12%nat, 12%nat. repeat split; try lia. now left. Qed.

Lemma gridCoord_12 : gridCoord 12 = - 2 / 25.
Proof. unfold gridCoord. replace (INR 12) with 12 by (simpl; lra). lra. Qed.

(** C4 as stated fails: a triangle of the paraboloid mesh, the level one at
    the origin, has intensity 1.5. *)
Lemma lightDot_exceeds_one :
  In levelTriangle (meshOf paraboloid)
  /\ lightDot levelTriangle = 1.5
  /\ ~ (0.2 <= lightDot levelTriangle <= 1.0).
Proof.
  assert (E : lightDot levelTriangle = 1.5).
  { apply level_lightDot. unfold levelTriangle, lowerTriangle, paraboloid.
    cbn [Surface.f]. rewrite gridCoord_12.
    replace ((- 2 / 25 + 4 / 25) * (- 2 / 25 + 4 / 25) + - 2 / 25 * (- 2 / 25))
      with (- 2 / 25 * (- 2 / 25) + - 2 / 25 * (- 2 / 25)) by lra.
    replace (- 2 / 25 * (- 2 / 25) + (- 2 / 25 + 4 / 25) * (- 2 / 25 + 4 / 25))
      with (- 2 / 25 * (- 2 / 25) + - 2 / 25 * (- 2 / 25)) by lra.
    apply level_normal. }
  split; [apply levelTriangle_in_mesh | split; [exact E|]].
  rewrite E. lra.
Qed.

Lemma flat_mesh_normal fn tri :
  (forall x y, Surface.f fn x y = 0) ->
  In tri (meshOf fn) -> normal tri = (0, 0, 16 / 625).
Proof.
  intros Hflat Hin. apply in_meshOf in Hin.
  destruct Hin as (i & j & _ & _ & H).
  destruct H as [-> | ->]; unfold lowerTriangle, upperTriangle;
    rewrite !Hflat; apply level_normal.
Qed.

(** C5 (as the code has it). On the flat plane every triangle of the mesh
    has the normal (0, 0, 16/625), which points along +z, and the intensity
    of every triangle is 1.5. *)
Theorem flat_plane_shading (fn : Surface.t) (tri : Triangle.t) :
  (forall x y, Surface.f fn x y = 0) ->
  In tri (meshOf fn) ->
  normal tri = (0, 0, 16 / 625) /\ lightDot tri = 1.5.
Proof.
  intros Hflat Hin.
  pose proof (flat_mesh_normal fn tri Hflat Hin) as E.
  split; [exact E | now apply level_lightDot].
Qed.

Lemma flat_plane_first_triangle :
  In (lowerTriangle flatPlane (gridCoord 0) (gridCoord 0)
        (gridCoord 0 + 4 / 25) (gridCoord 0 + 4 / 25))
     (meshOf flatPlane).
Proof. apply in_meshOf. exists 0%nat, 0%nat. repeat split; try lia. now left. Qed.

Lemma flat_plane_shading_witness :
  (forall x y, Surface.f flatPlane x y = 0)
  /\ In (lowerTriangle flatPlane (gridCoord 0) (gridCoord 0)
           (gridCoord 0 + 4 / 25) (gridCoord 0 + 4 / 25))
        (meshOf flatPlane)
  /\ lightDot (lowerTriangle flatPlane (gridCoord 0) (gridCoord 0)
                 (gridCoord 0 + 4 / 25) (gridCoord 0 + 4 / 25)) = 1.5.
Proof.
  split; [reflexivity|]. split; [apply flat_plane_first_triangle|].
  apply (flat_plane_shading flatPlane); [reflexivity | apply flat_plane_first_triangle].
Defined.

(** C5 as stated fails: on the flat plane the intensity is not 1.0. *)
Lemma flat_plane_intensity_is_not_one :
  ~ (forall tri, In tri (meshOf flatPlane) -> lightDot tri = 1.0).
Proof.
  intros C. specialize (C _ flat_plane_first_triangle).
  rewrite level_lightDot in C; [lra|].
  apply (flat_mesh_normal flatPlane); [reflexivity | apply flat_plane_first_triangle].
Qed.

Lemma mesh_normal_z fn tri : In tri (meshOf fn) -> snd (normal tri) = 16 / 625.
Proof.
  intros Hin. apply in_meshOf in Hin. destruct Hin as (i & j & _ & _ & H).
  destruct H as [-> | ->]; unfold normal, lowerTriangle, upperTriangle;
    cbn [Triangle.p1 Triangle.p2 Triangle.p3 Point3D.x Point3D.y Point3D.z snd];
    field.
Qed.

(** No triangle of a mesh is degenerate, so the bounds hold on every mesh. *)
Lemma mesh_lightDot_bounds fn tri :
  In tri (meshOf fn) -> 0.2 <= lightDot tri <= 0.5 + 0.5 * sqrt 6.
Proof.
  intros Hin. pose proof (mesh_normal_z fn tri Hin) as Hz.
  unfold lightDot. destruct (normal tri) as [[nx ny] nz]. cbn [snd] in Hz.
  apply intensity_bounds.
  intros C. apply (f_equal snd) in C. cbn [snd] in C. lra.
Qed.

(** ** Arrowheads *)

Lemma hypot_factor x y :
  x <> 0 -> sqrt (x * x + y * y) = Rabs x * sqrt (1 + (y / x)²).
Proof.
  intros Hx.
  replace (x * x + y * y) with (x² * (1 + (y / x)²)) by (unfold Rsqr; now field).
  rewrite sqrt_mult.
  - now rewrite sqrt_Rsqr_abs.
  - apply Rle_0_sqr.
  - pose proof (Rle_0_sqr (y / x)). lra.
Qed.

Lemma atan2_polar x y :
  x <> 0 \/ y <> 0 ->
  sqrt (x * x + y * y) * cos (atan2 y x) = x
  /\ sqrt (x * x + y * y) * sin (atan2 y x) = y.
Proof.
  intros H. unfold atan2.
  assert (Hd : 0 < sqrt (1 + (y / x)²)).
  { apply sqrt_lt_R0. pose proof (Rle_0_sqr (y / x)). lra. }
  destruct (Rlt_dec 0 x) as [Hx|Hx].
  - rewrite hypot_factor, Rabs_right by lra.
    rewrite cos_atan, sin_atan. split; field; lra.
  - destruct (Rlt_dec x 0) as [Hx'|Hx'].
    + rewrite hypot_factor, Rabs_left by lra.
      destruct (Rle_dec 0 y) as [Hy|Hy].
      * rewrite neg_cos, neg_sin, cos_atan, sin_atan. split; field; lra.
      * rewrite cos_minus, sin_minus, cos_PI, sin_PI, cos_atan, sin_atan.
        split; field; lra.
    + assert (x = 0) by lra. subst x.
      replace (0 * 0 + y * y) with (y * y) by lra.
      destruct (Rlt_dec 0 y) as [Hy|Hy].
      * rewrite sqrt_square, cos_PI2, sin_PI2 by lra. lra.
      * destruct (Rlt_dec y 0) as [Hy'|Hy']; [|lra].
        replace (y * y) with (- y * - y) by lra.
        replace (- PI / 2) with (- (PI / 2)) by lra.
        rewrite sqrt_square, cos_neg, sin_neg, cos_PI2, sin_PI2 by lra. lra.
Qed.

Lemma norm2_polar len a : 0 <= len -> norm2 (- (len * cos a), - (len * sin a)) = len.
Proof.
  intros H. unfold norm2. cbn [fst snd].
  replace (- (len * cos a) * - (len * cos a) + - (len * sin a) * - (len * sin a))
    with (len * len * ((sin a)² + (cos a)²)) by (unfold Rsqr; ring).
  rewrite sin2_cos2, Rmult_1_r. now apply sqrt_square.
Qed.

(** A stroke of length [len] drawn back from the tip at the angle
    [theta + phi], against a shaft of direction [theta]. *)
Lemma stroke_angle dx dy len phi :
  dx <> 0 \/ dy <> 0 -> 0 < len ->
  let theta := atan2 dy dx in
  let stroke := (- (len * cos (theta + phi)), - (len * sin (theta + phi))) in
  norm2 stroke = len
  /\ angleBetween stroke (- dx, - dy) = acos (cos phi)
  /\ cross (- dx, - dy) stroke = len * sqrt (dx * dx + dy * dy) * sin phi.
Proof.
  intros Hd Hlen theta stroke.
  destruct (atan2_polar dx dy Hd) as [Hc Hs]. fold theta in Hc, Hs.
  set (r := sqrt (dx * dx + dy * dy)) in *.
  assert (Hr : 0 < r).
  { apply sqrt_lt_R0. destruct Hd as [Hd|Hd]; nra. }
  assert (Hn : norm2 stroke = len) by (apply norm2_polar; lra).
  split; [exact Hn|]. split.
  - unfold angleBetween. rewrite Hn.
    replace (norm2 (- dx, - dy)) with r.
    2:{ unfold norm2, r. cbn [fst snd]. f_equal. ring. }
    f_equal. unfold stroke. cbn [fst snd].
    rewrite cos_plus, sin_plus. rewrite <- Hc, <- Hs.
    pose proof (sin2_cos2 theta) as Hsc. unfold Rsqr in Hsc.
    match goal with
    | |- ?num / _ = _ => replace num with (cos phi * (len * r))
    end.
    + field. lra.
    + transitivity
        (len * r * cos phi * (sin theta * sin theta + cos theta * cos theta));
        [rewrite Hsc|]; ring.
  - unfold cross, stroke. cbn [fst snd].
    rewrite cos_plus, sin_plus. rewrite <- Hc, <- Hs.
    pose proof (sin2_cos2 theta) as Hsc. unfold Rsqr in Hsc.
    transitivity
      (len * r * sin phi * (sin theta * sin theta + cos theta * cos theta));
      [|rewrite Hsc]; ring.
Qed.

Lemma drawArrow3D_eq x1 y1 z1 x2 y2 z2 color width s :
  let p1 := project3D s x1 y1 z1 in
  let p2 := project3D s x2 y2 z2 in
  drawArrow3D x1 y1 z1 x2 y2 z2 color width s
  = (s,
     [ SetStrokeStyle (Literal color); SetLineWidth width; BeginPath;
       MoveTo (Point2D.x p1) (Point2D.y p1);
       LineTo (Point2D.x p2) (Point2D.y p2);
       Stroke;
       BeginPath;
       MoveTo (Point2D.x p2) (Point2D.y p2);
       LineTo (fst (fst (arrowHead p1 p2))) (snd (fst (arrowHead p1 p2)));
       MoveTo (Point2D.x p2) (Point2D.y p2);
       LineTo (fst (snd (arrowHead p1 p2))) (snd (snd (arrowHead p1 p2)));
       Stroke ],
     Ok tt).
Proof.
  intros p1 p2. unfold drawArrow3D. rewrite bind_this. cbv zeta.
  fold p1 p2. destruct (arrowHead p1 p2) as [e1 e2].
  reflexivity.
Qed.

Lemma acos_cos_PI6 : acos (cos (PI / 6)) = PI / 6 /\ acos (cos (- (PI / 6))) = PI / 6.
Proof.
  pose proof PI_RGT_0. rewrite cos_neg.
  split; apply acos_cos; lra.
Qed.

(** C7. When the two projected endpoints are distinct points of the screen,
    [drawArrow3D] strokes the shaft and then two segments from the projected
    end point, each 10 long and each at the angle PI/6 to the shaft at the
    tip, one on either side of it. *)
Theorem arrowhead_strokes (s : Viz) (x1 y1 z1 x2 y2 z2 : R)
    (color : string) (width : R) :
  let p1 := project3D s x1 y1 z1 in
  let p2 := project3D s x2 y2 z2 in
  Point2D.depth p1 <> 0 -> Point2D.depth p2 <> 0 ->
  screen p1 <> screen p2 ->
  exists e1 e2,
    drawArrow3D x1 y1 z1 x2 y2 z2 color width s
    = (s,
       [ SetStrokeStyle (Literal color); SetLineWidth width; BeginPath;
         MoveTo (Point2D.x p1) (Point2D.y p1);
         LineTo (Point2D.x p2) (Point2D.y p2);
         Stroke;
         BeginPath;
         MoveTo (Point2D.x p2) (Point2D.y p2); LineTo (fst e1) (snd e1);
         MoveTo (Point2D.x p2) (Point2D.y p2); LineTo (fst e2) (snd e2);
         Stroke ],
       Ok tt)
    /\ norm2 (vec (screen p2) e1) = 10
    /\ norm2 (vec (screen p2) e2) = 10
    /\ angleBetween (vec (screen p2) e1) (vec (screen p2) (screen p1)) = PI / 6
    /\ angleBetween (vec (screen p2) e2) (vec (screen p2) (screen p1)) = PI / 6
    /\ cross (vec (screen p2) (screen p1)) (vec (screen p2) e1)
       * cross (vec (screen p2) (screen p1)) (vec (screen p2) e2) < 0.
Proof.
  intros p1 p2 _ _ Hne.
  exists (fst (arrowHead p1 p2)), (snd (arrowHead p1 p2)).
  split; [apply drawArrow3D_eq|].
  set (dx := Point2D.x p2 - Point2D.x p1).
  set (dy := Point2D.y p2 - Point2D.y p1).
  assert (Hd : dx <> 0 \/ dy <> 0).
  { destruct (Req_dec dx 0) as [Hx|Hx]; [|now left].
    destruct (Req_dec dy 0) as [Hy|Hy]; [|now right].
    destruct Hne. unfold screen, dx, dy in *. f_equal; lra. }
  assert (Hshaft : vec (screen p2) (screen p1) = (- dx, - dy)).
  { unfold vec, screen, dx, dy. cbn [fst snd]. f_equal; ring. }
  assert (H1 : vec (screen p2) (fst (arrowHead p1 p2))
               = (- (10 * cos (atan2 dy dx + - (PI / 6))),
                  - (10 * sin (atan2 dy dx + - (PI / 6))))).
  { unfold vec, screen, arrowHead. cbv zeta. cbn [fst snd]. fold dx dy.
    replace (atan2 dy dx - PI / 6) with (atan2 dy dx + - (PI / 6)) by ring.
    f_equal; ring. }
  assert (H2 : vec (screen p2) (snd (arrowHead p1 p2))
               = (- (10 * cos (atan2 dy dx + PI / 6)),
                  - (10 * sin (atan2 dy dx + PI / 6)))).
  { unfold vec, screen, arrowHead. cbv zeta. cbn [fst snd]. fold dx dy.
    f_equal; ring. }
  rewrite Hshaft, H1, H2.
  destruct (stroke_angle dx dy 10 (- (PI / 6)) Hd ltac:(lra)) as (N1 & A1 & C1).
  destruct (stroke_angle dx dy 10 (PI / 6) Hd ltac:(lra)) as (N2 & A2 & C2).
  cbv zeta in N1, A1, C1, N2, A2, C2.
  destruct acos_cos_PI6 as [Hp Hm].
  rewrite N1, N2, A1, A2, C1, C2, Hp, Hm, sin_neg, sin_PI6.
  repeat split.
  assert (Hr : 0 < sqrt (dx * dx + dy * dy)).
  { apply sqrt_lt_R0. destruct Hd as [Hd|Hd]; nra. }
  nra.
Qed.

Lemma cos_08_pos : 0 < cos 0.8.
Proof. pose proof PI2_1. apply cos_gt_0; lra. Qed.

Lemma arrowhead_strokes_witness :
  let s := new_viz 900 700 in
  let p1 := project3D s 0 0 0 in
  let p2 := project3D s 1 0 0 in
  (Point2D.depth p1 <> 0 /\ Point2D.depth p2 <> 0 /\ screen p1 <> screen p2)
  /\ exists e1 e2,
       norm2 (vec (screen p2) e1) = 10
       /\ norm2 (vec (screen p2) e2) = 10
       /\ angleBetween (vec (screen p2) e1) (vec (screen p2) (screen p1)) = PI / 6
       /\ angleBetween (vec (screen p2) e2) (vec (screen p2) (screen p1)) = PI / 6.
Proof.
  intros s p1 p2.
  pose proof (SIN_bound 0.8) as Hs. pose proof (COS_bound 0.3) as Hc.
  pose proof cos_08_pos as Hc8.
  assert (D1 : Point2D.depth p1 <> 0).
  { unfold p1, s, project3D. cbn [Point2D.depth cameraAngleX cameraAngleY
      cameraDistance new_viz]. lra. }
  assert (Hpos : 0 < Point2D.depth p2).
  { unfold p2, s, project3D. cbn [Point2D.depth cameraAngleX cameraAngleY
      cameraDistance new_viz]. nra. }
  assert (D2 : Point2D.depth p2 <> 0) by lra.
  assert (D3 : screen p1 <> screen p2).
  { intros C. apply (f_equal fst) in C.
    unfold screen, p1, p2, s, project3D in C, Hpos.
    cbn [fst Point2D.x Point2D.depth cameraAngleX cameraAngleY cameraDistance
         canvas_width new_viz] in C, Hpos.
    match type of Hpos with 0 < ?d => set (depth2 := d) in * end.
    assert (0 < 600 / depth2) by (apply Rdiv_lt_0_compat; lra).
    nra. }
  split; [now repeat split|].
  destruct (arrowhead_strokes s 0 0 0 1 0 0 "#e94560" 2 D1 D2 D3)
    as (e1 & e2 & _ & N1 & N2 & A1 & A2 & _).
  now exists e1, e2.
Defined.

(** * Further properties *)

(** ** Projection *)

(** The rotations of [project3D] keep the length of a vector. *)
Lemma project3D_view_norm s x y z :
  let vx := x * cos (cameraAngleY s) - z * sin (cameraAngleY s) in
  let vz1 := x * sin (cameraAngleY s) + z * cos (cameraAngleY s) in
  let vy := y * cos (cameraAngleX s) - vz1 * sin (cameraAngleX s) in
  let vz := Point2D.depth (project3D s x y z) - cameraDistance s in
  vx * vx + vy * vy + vz * vz = x * x + y * y + z * z.
Proof.
  cbv zeta. unfold project3D. cbn [Point2D.depth].
  pose proof (sin2_cos2 (cameraAngleY s)) as HY.
  pose proof (sin2_cos2 (cameraAngleX s)) as HX.
  unfold Rsqr in HY, HX.
  set (cy := cos (cameraAngleY s)) in *. set (sy := sin (cameraAngleY s)) in *.
  set (cx := cos (cameraAngleX s)) in *. set (sx := sin (cameraAngleX s)) in *.
  transitivity
    ((x * x + z * z) * (sy * sy + cy * cy)
     + (y * y) * (sx * sx + cx * cx)
     + ((x * sy + z * cy) * (x * sy + z * cy)) * (sx * sx + cx * cx)
     - (x * sy + z * cy) * (x * sy + z * cy)).
  - ring.
  - rewrite HY, HX. ring.
Qed.

Lemma norm3_sqr x y z : norm3 x y z * norm3 x y z = x * x + y * y + z * z.
Proof. unfold norm3. apply sqrt_sqrt. nra. Qed.

Lemma depth_within_norm s x y z :
  cameraDistance s - norm3 x y z <= Point2D.depth (project3D s x y z)
  <= cameraDistance s + norm3 x y z.
Proof.
  pose proof (project3D_view_norm s x y z) as H. cbv zeta in H.
  pose proof (norm3_sqr x y z) as HN.
  assert (0 <= norm3 x y z) by apply sqrt_pos.
  set (vz := Point2D.depth (project3D s x y z) - cameraDistance s) in *.
  set (N := norm3 x y z) in *.
  match type of H with ?a * ?a + ?b * ?b + _ = _ =>
    pose proof (Rle_0_sqr a) as Ha; pose proof (Rle_0_sqr b) as Hb;
    unfold Rsqr in Ha, Hb
  end.
  assert (Hsq : vz * vz <= N * N) by lra.
  assert (- N <= vz <= N) by nra.
  unfold vz in *. lra.
Qed.

(** X1. The camera orbits the world origin: whatever the angles, the origin is
    drawn at the centre of the canvas, at depth [cameraDistance]. *)
Theorem origin_projects_to_the_centre (s : Viz) :
  cameraDistance s <> 0 ->
  project3D s 0 0 0
  = {| Point2D.x := canvas_width s / 2;
       Point2D.y := canvas_height s / 2;
       Point2D.depth := cameraDistance s |}.
Proof. intros _. unfold project3D. f_equal; ring. Qed.

Lemma origin_projects_to_the_centre_witness :
  cameraDistance (new_viz 900 700) <> 0
  /\ Point2D.depth (project3D (new_viz 900 700) 0 0 0) = 8.
Proof.
  assert (H : cameraDistance (new_viz 900 700) <> 0) by (cbn; lra).
  split; [exact H|].
  rewrite (origin_projects_to_the_centre (new_viz 900 700) H). reflexivity.
Defined.

(** X2. The depth of a point differs from the camera distance by at most the
    distance of the point from the origin. *)
Theorem depth_is_distance_up_to_the_norm (s : Viz) (x y z : R) :
  cameraDistance s - norm3 x y z <= Point2D.depth (project3D s x y z)
  <= cameraDistance s + norm3 x y z.
Proof. apply depth_within_norm. Qed.

Lemma inside_radius_3 x y z : x * x + y * y + z * z < 9 -> norm3 x y z < 3.
Proof.
  intros H. unfold norm3.
  replace 3 with (sqrt (3 * 3)) by (apply sqrt_square; lra).
  apply sqrt_lt_1; nra.
Qed.

(** X3. Whatever the user does with mouse and wheel, every point closer than 3
    to the origin, and so the whole grid of the xy-plane, stays in front of
    the camera: its depth is positive and its projection is finite. *)
Theorem near_points_stay_in_front (width height : R) (events : list Event) :
  Forall (fun s =>
            (forall x y z,
               x * x + y * y + z * z < 9 -> 0 < Point2D.depth (project3D s x y z))
            /\ (forall x y,
                  - 2 <= x <= 2 -> - 2 <= y <= 2 ->
                  0 < Point2D.depth (project3D s x y 0)))
         (dispatch events (new_viz width height)).
Proof.
  eapply Forall_impl; [|apply dispatch_clamped, new_viz_clamped].
  intros s [_ [Hd _]].
  assert (Hnear : forall x y z,
            x * x + y * y + z * z < 9 -> 0 < Point2D.depth (project3D s x y z)).
  { intros x y z H. pose proof (inside_radius_3 x y z H).
    pose proof (depth_within_norm s x y z). lra. }
  split; [exact Hnear|].
  intros x y Hx Hy. apply Hnear. nra.
Qed.

Lemma rotation_inverse a b c sn a' b' :
  sn * sn + c * c = 1 ->
  a' = a * c - b * sn -> b' = a * sn + b * c ->
  a = a' * c + b' * sn /\ b = b' * c - a' * sn.
Proof.
  intros H -> ->. split.
  - transitivity (a * (sn * sn + c * c)); [rewrite H|]; ring.
  - transitivity (b * (sn * sn + c * c)); [rewrite H|]; ring.
Qed.

(** X4. Screen position and depth together determine the world point: two
    points with the same projection, at a depth that is not zero, are equal. *)
Theorem project3D_injective (s : Viz) (x y z x' y' z' : R) :
  Point2D.depth (project3D s x y z) <> 0 ->
  project3D s x y z = project3D s x' y' z' ->
  (x, y, z) = (x', y', z').
Proof.
  intros Hd E.
  pose proof (f_equal Point2D.x E) as Ex.
  pose proof (f_equal Point2D.y E) as Ey.
  pose proof (f_equal Point2D.depth E) as Ez.
  unfold project3D in Hd, Ex, Ey, Ez. cbn [Point2D.x Point2D.y Point2D.depth] in *.
  pose proof (sin2_cos2 (cameraAngleY s)) as HY.
  pose proof (sin2_cos2 (cameraAngleX s)) as HX.
  unfold Rsqr in HY, HX.
  set (cy := cos (cameraAngleY s)) in *. set (sy := sin (cameraAngleY s)) in *.
  set (cx := cos (cameraAngleX s)) in *. set (sx := sin (cameraAngleX s)) in *.
  rewrite <- Ez in Ex, Ey.
  set (D := y * sx + (x * sy + z * cy) * cx + cameraDistance s) in *.
  assert (Hs : 600 / D <> 0).
  { unfold Rdiv. apply Rmult_integral_contrapositive_currified; [lra|].
    now apply Rinv_neq_0_compat. }
  assert (E1 : x * cy - z * sy = x' * cy - z' * sy).
  { apply (Rmult_eq_reg_r (600 / D)); [lra | exact Hs]. }
  assert (E2 : y * cx - (x * sy + z * cy) * sx = y' * cx - (x' * sy + z' * cy) * sx).
  { apply (Rmult_eq_reg_r (600 / D)); [lra | exact Hs]. }
  assert (E3 : y * sx + (x * sy + z * cy) * cx = y' * sx + (x' * sy + z' * cy) * cx)
    by (unfold D in Ez; lra).
  destruct (rotation_inverse y (x * sy + z * cy) cx sx _ _ HX eq_refl eq_refl)
    as [Hy Hz1].
  destruct (rotation_inverse y' (x' * sy + z' * cy) cx sx _ _ HX eq_refl eq_refl)
    as [Hy' Hz1'].
  assert (Eyy : y = y') by (rewrite Hy, Hy', E2, E3; reflexivity).
  assert (Ez1 : x * sy + z * cy = x' * sy + z' * cy)
    by (rewrite Hz1, Hz1', E2, E3; reflexivity).
  destruct (rotation_inverse x z cy sy _ _ HY eq_refl eq_refl) as [Hx Hz].
  destruct (rotation_inverse x' z' cy sy _ _ HY eq_refl eq_refl) as [Hx' Hz'].
  assert (Exx : x = x') by (rewrite Hx, Hx', E1, Ez1; reflexivity).
  assert (Ezz : z = z') by (rewrite Hz, Hz', E1, Ez1; reflexivity).
  now rewrite Exx, Eyy, Ezz.
Qed.

Lemma project3D_injective_witness :
  Point2D.depth (project3D (new_viz 900 700) 0 0 0) <> 0
  /\ (project3D (new_viz 900 700) 0 0 0 = project3D (new_viz 900 700) 0 0 0 ->
      (0, 0, 0) = (0, 0, 0)).
Proof.
  assert (H : Point2D.depth (project3D (new_viz 900 700) 0 0 0) <> 0).
  { unfold project3D. cbn [Point2D.depth cameraAngleX cameraAngleY cameraDistance
      new_viz]. lra. }
  split; [exact H|].
  exact (project3D_injective (new_viz 900 700) 0 0 0 0 0 0 H).
Defined.

Lemma full_turn_projection s s' :
  cameraAngleY s' = cameraAngleY s + 2 * PI ->
  cameraAngleX s' = cameraAngleX s ->
  cameraDistance s' = cameraDistance s ->
  canvas_width s' = canvas_width s ->
  canvas_height s' = canvas_height s ->
  forall x y z, project3D s' x y z = project3D s x y z.
Proof.
  intros Hy Hp Hd Hw Hh x y z. unfold project3D.
  rewrite Hy, Hp, Hd, Hw, Hh.
  rewrite cos_plus, sin_plus, cos_2PI, sin_2PI.
  replace (cos (cameraAngleY s) * 1 - sin (cameraAngleY s) * 0)
    with (cos (cameraAngleY s)) by ring.
  replace (sin (cameraAngleY s) * 1 + cos (cameraAngleY s) * 0)
    with (sin (cameraAngleY s)) by ring.
  reflexivity.
Qed.

Lemma clamp_keeps lo hi v : lo <= v <= hi -> Rmax lo (Rmin hi v) = v.
Proof. intros [H1 H2]. rewrite Rmin_right by exact H2. now apply Rmax_right. Qed.

(** X5. During a drag the mousemove handler adds 0.01 times the horizontal
    travel to the yaw and never clamps it, however large the result; and a
    move of 200 PI pixels to the right with no vertical travel turns the
    yaw by a full turn, leaves the pitch as it was and changes no
    projection. *)
Theorem full_turn_of_the_yaw_is_invisible (s : Viz) (clientX clientY : R) :
  isDragging s = true ->
  - PI / 2 <= cameraAngleX s <= PI / 2 ->
  cameraAngleY (state_of (on_mousemove clientX clientY s))
  = cameraAngleY s + (clientX - lastMouseX s) * 0.01
  /\ let s' := state_of (on_mousemove (lastMouseX s + 200 * PI) (lastMouseY s) s) in
     cameraAngleY s' = cameraAngleY s + 2 * PI
     /\ cameraAngleX s' = cameraAngleX s
     /\ forall x y z, project3D s' x y z = project3D s x y z.
Proof.
  intros Hd Hp. rewrite !on_mousemove_eq, Hd, !ro_render.
  split; [reflexivity|]. cbv zeta.
  set (s' := rotated (lastMouseX s + 200 * PI) (lastMouseY s) s).
  assert (Hy : cameraAngleY s' = cameraAngleY s + 2 * PI).
  { unfold s'. cbn [rotated cameraAngleY set_lastMouseY set_lastMouseX
      set_cameraAngleX set_cameraAngleY]. lra. }
  assert (Hx : cameraAngleX s' = cameraAngleX s).
  { unfold s'. cbn [rotated cameraAngleX set_lastMouseY set_lastMouseX
      set_cameraAngleX set_cameraAngleY].
    rewrite clamp_keeps; lra. }
  split; [exact Hy|]. split; [exact Hx|].
  now apply full_turn_projection.
Qed.

Lemma full_turn_of_the_yaw_is_invisible_witness :
  isDragging (set_isDragging true (new_viz 900 700)) = true
  /\ - PI / 2 <= cameraAngleX (set_isDragging true (new_viz 900 700)) <= PI / 2
  /\ cameraAngleY
       (state_of (on_mousemove (0 + 200 * PI) 0 (set_isDragging true (new_viz 900 700))))
     = 0.8 + 2 * PI.
Proof.
  assert (H1 : isDragging (set_isDragging true (new_viz 900 700)) = true)
    by reflexivity.
  assert (H2 : - PI / 2 <= cameraAngleX (set_isDragging true (new_viz 900 700))
               <= PI / 2).
  { cbn [cameraAngleX set_isDragging new_viz].
    pose proof PI2_gt_03. pose proof PI_RGT_0. lra. }
  split; [exact H1|]. split; [exact H2|].
  exact (proj1 (proj2 (full_turn_of_the_yaw_is_invisible
                         (set_isDragging true (new_viz 900 700)) 0 0 H1 H2))).
Defined.

(** ** The parametric curve *)

(** X6. The curve goes through the evaluation point at [tParam], and it is
    the straight line whose velocity is what [getCurveDerivative] returns. *)
Theorem curve_is_the_line_through_the_point (s : Viz) (t h : R) :
  exists d,
    getCurveDerivative s = (s, [], Ok d)
    /\ getCurvePoint s (tParam s)
       = {| CurvePoint.x := pointX s; CurvePoint.y := pointY s |}
    /\ CurvePoint.x (getCurvePoint s (t + h))
       = CurvePoint.x (getCurvePoint s t) + h * CurveDerivative.dx d
    /\ CurvePoint.y (getCurvePoint s (t + h))
       = CurvePoint.y (getCurvePoint s t) + h * CurveDerivative.dy d.
Proof.
  eexists. split; [reflexivity|].
  unfold getCurvePoint. cbn [CurvePoint.x CurvePoint.y CurveDerivative.dx
    CurveDerivative.dy].
  split; [f_equal; ring | split; ring].
Qed.

Lemma for_local_flag {A} (l : list A) (body : A -> bool -> M bool)
    (op : A -> CanvasOp) s :
  (forall a, body a false s = (s, [op a], Ok false)) ->
  for_local l false body s = (s, map op l, Ok false).
Proof.
  intros H. induction l as [|a l IH]; cbn [for_local map].
  - reflexivity.
  - rewrite (bind_ok _ _ _ _ _ _ (H a)), IH. reflexivity.
Qed.

Lemma for_local_first {A} (a : A) (l : list A) (body : A -> bool -> M bool)
    (op0 op : A -> CanvasOp) s :
  body a true s = (s, [op0 a], Ok false) ->
  (forall a, body a false s = (s, [op a], Ok false)) ->
  for_local (a :: l) true body s = (s, op0 a :: map op l, Ok false).
Proof.
  intros H0 H. cbn [for_local].
  rewrite (bind_ok _ _ _ _ _ _ H0), (for_local_flag l body op s H). reflexivity.
Qed.

Lemma INR_50_100 : INR 50 / INR 100 = 1 / 2.
Proof.
  replace (INR 50) with 50 by (rewrite INR_IZR_INZ; reflexivity).
  replace (INR 100) with 100 by (rewrite INR_IZR_INZ; reflexivity).
  lra.
Qed.

Lemma curveSample_50 s fn : curveSample s fn 50 = project s (surfacePoint s fn).
Proof.
  unfold curveSample, project, surfacePoint. cbv zeta.
  cbn [Point3D.x Point3D.y Point3D.z].
  replace (tParam s - 2 + (tParam s + 2 - (tParam s - 2)) * INR 50 / INR 100)
    with (tParam s).
  2:{ unfold Rdiv at 1. rewrite Rmult_assoc. fold (INR 50 / INR 100).
      rewrite INR_50_100. lra. }
  replace (CurvePoint.x (getCurvePoint s (tParam s))) with (pointX s)
    by (unfold getCurvePoint; cbn [CurvePoint.x]; ring).
  replace (CurvePoint.y (getCurvePoint s (tParam s))) with (pointY s)
    by (unfold getCurvePoint; cbn [CurvePoint.y]; ring).
  reflexivity.
Qed.

Lemma drawCurve_eq s fn :
  get_property (functions s) (currentFunction s) = VSurface fn ->
  drawCurve s
  = if showCurve s then
      (s,
       [ SetStrokeStyle (Literal "#ffe66d"); SetLineWidth 3; BeginPath;
         MoveTo (Point2D.x (curveSample s fn 0)) (Point2D.y (curveSample s fn 0)) ]
       ++ map (fun i => LineTo (Point2D.x (curveSample s fn i))
                          (Point2D.y (curveSample s fn i)))
              (seq 1 100)
       ++ [ Stroke ],
       Ok tt)
    else (s, [], Ok tt).
Proof.
  intros E. unfold drawCurve. rewrite bind_this.
  destruct (showCurve s); cbn [negb]; [|reflexivity].
  cbv zeta. rewrite E.
  change (seq 0 (100 + 1)) with (0%nat :: seq 1 100).
  match goal with
  | |- context [for_local (0%nat :: seq 1 100) true ?body] =>
      pose proof (for_local_first 0%nat (seq 1 100) body
                    (fun i => MoveTo (Point2D.x (curveSample s fn i))
                                (Point2D.y (curveSample s fn i)))
                    (fun i => LineTo (Point2D.x (curveSample s fn i))
                                (Point2D.y (curveSample s fn i))) s
                    eq_refl (fun a => eq_refl)) as HL
  end.
  rewrite !bind_ctx, (bind_ok _ _ _ _ _ _ HL). reflexivity.
Qed.

(** X7. When the curve is shown and the current key names the entry [fn],
    [drawCurve] strokes one path of 101 samples, a move to the first and a
    line to each of the other hundred, and the middle sample is the point
    of the surface above the evaluation point; when hidden it draws nothing. *)
Theorem drawCurve_is_one_path_through_the_point (s : Viz) (fn : Surface.t) :
  get_property (functions s) (currentFunction s) = VSurface fn ->
  drawCurve s
  = (if showCurve s then
       (s,
        [ SetStrokeStyle (Literal "#ffe66d"); SetLineWidth 3; BeginPath;
          MoveTo (Point2D.x (curveSample s fn 0)) (Point2D.y (curveSample s fn 0)) ]
        ++ map (fun i => LineTo (Point2D.x (curveSample s fn i))
                           (Point2D.y (curveSample s fn i)))
               (seq 1 100)
        ++ [ Stroke ],
        Ok tt)
     else (s, [], Ok tt))
  /\ curveSample s fn 50 = project s (surfacePoint s fn).
Proof. intros E. split; [now apply drawCurve_eq | apply curveSample_50]. Qed.

Lemma drawCurve_is_one_path_through_the_point_witness :
  get_property (functions (new_viz 900 700)) (currentFunction (new_viz 900 700))
  = VSurface paraboloid
  /\ curveSample (new_viz 900 700) paraboloid 50
     = project (new_viz 900 700) (surfacePoint (new_viz 900 700) paraboloid).
Proof.
  split; [reflexivity|].
  apply (drawCurve_is_one_path_through_the_point (new_viz 900 700) paraboloid).
  reflexivity.
Defined.

(** ** Tangent plane and arrows *)

Lemma drawTangentPlane_eq s fn :
  get_property (functions s) (currentFunction s) = VSurface fn ->
  let c0 := Point3D.Build (pointX s - 0.5) (pointY s - 0.5)
              (tangentHeight s fn (pointX s - 0.5) (pointY s - 0.5)) in
  let c1 := Point3D.Build (pointX s + 0.5) (pointY s - 0.5)
              (tangentHeight s fn (pointX s + 0.5) (pointY s - 0.5)) in
  let c2 := Point3D.Build (pointX s + 0.5) (pointY s + 0.5)
              (tangentHeight s fn (pointX s + 0.5) (pointY s + 0.5)) in
  let c3 := Point3D.Build (pointX s - 0.5) (pointY s + 0.5)
              (tangentHeight s fn (pointX s - 0.5) (pointY s + 0.5)) in
  drawTangentPlane s
  = if showTangentPlane s then
      (s,
       [ SetFillStyle (Literal "rgba(255, 230, 109, 0.3)");
         SetStrokeStyle (Literal "#ffe66d"); SetLineWidth 2; BeginPath;
         MoveTo (Point2D.x (project s c0)) (Point2D.y (project s c0));
         LineTo (Point2D.x (project s c1)) (Point2D.y (project s c1));
         LineTo (Point2D.x (project s c2)) (Point2D.y (project s c2));
         LineTo (Point2D.x (project s c3)) (Point2D.y (project s c3));
         ClosePath; Fill; Stroke ],
       Ok tt)
    else (s, [], Ok tt).
Proof.
  intros E. cbv zeta. unfold drawTangentPlane. rewrite bind_this.
  destruct (showTangentPlane s); cbn [negb]; [|reflexivity].
  cbv zeta. rewrite E, !bind_call_surface. reflexivity.
Qed.

(** X8. The tangent plane is drawn as one filled and stroked quadrilateral
    whose corners lie at +-0.5 around the evaluation point, on the plane
    through the surface point with the slopes dfdx and dfdy; its diagonals
    cross at the surface point.  When hidden nothing is drawn. *)
Theorem tangent_plane_is_centred_on_the_surface_point (s : Viz) (fn : Surface.t) :
  get_property (functions s) (currentFunction s) = VSurface fn ->
  exists c0 c1 c2 c3 : Point3D.t,
    drawTangentPlane s
    = (if showTangentPlane s then
         (s,
          [ SetFillStyle (Literal "rgba(255, 230, 109, 0.3)");
            SetStrokeStyle (Literal "#ffe66d"); SetLineWidth 2; BeginPath;
            MoveTo (Point2D.x (project s c0)) (Point2D.y (project s c0));
            LineTo (Point2D.x (project s c1)) (Point2D.y (project s c1));
            LineTo (Point2D.x (project s c2)) (Point2D.y (project s c2));
            LineTo (Point2D.x (project s c3)) (Point2D.y (project s c3));
            ClosePath; Fill; Stroke ],
          Ok tt)
       else (s, [], Ok tt))
    /\ Forall (onTangentPlane s fn) [c0; c1; c2; c3]
    /\ (Point3D.x c0, Point3D.y c0) = (pointX s - 0.5, pointY s - 0.5)
    /\ (Point3D.x c1, Point3D.y c1) = (pointX s + 0.5, pointY s - 0.5)
    /\ (Point3D.x c2, Point3D.y c2) = (pointX s + 0.5, pointY s + 0.5)
    /\ (Point3D.x c3, Point3D.y c3) = (pointX s - 0.5, pointY s + 0.5)
    /\ (Point3D.z c0 + Point3D.z c2) / 2 = Point3D.z (surfacePoint s fn)
    /\ (Point3D.z c1 + Point3D.z c3) / 2 = Point3D.z (surfacePoint s fn).
Proof.
  intros E. do 4 eexists.
  split; [exact (drawTangentPlane_eq s fn E)|].
  split; [repeat (apply Forall_cons; [reflexivity|]); apply Forall_nil|].
  do 4 (split; [reflexivity|]).
  unfold tangentHeight, surfacePoint. cbn [Point3D.x Point3D.y Point3D.z].
  split; field.
Qed.

Lemma tangent_plane_is_centred_on_the_surface_point_witness :
  get_property (functions (new_viz 900 700)) (currentFunction (new_viz 900 700))
  = VSurface paraboloid
  /\ exists c0 c1 c2 c3 : Point3D.t,
       Forall (onTangentPlane (new_viz 900 700) paraboloid) [c0; c1; c2; c3]
       /\ (Point3D.z c0 + Point3D.z c2) / 2
          = Point3D.z (surfacePoint (new_viz 900 700) paraboloid).
Proof.
  split; [reflexivity|].
  destruct (tangent_plane_is_centred_on_the_surface_point (new_viz 900 700)
              paraboloid eq_refl)
    as (c0 & c1 & c2 & c3 & _ & H & _ & _ & _ & _ & Hm & _).
  now exists c0, c1, c2, c3.
Defined.

Lemma drawVectors_eq s fn :
  get_property (functions s) (currentFunction s) = VSurface fn ->
  let p := surfacePoint s fn in
  let dxdt := magnitude s * cos (directionAngle s) in
  let dydt := magnitude s * sin (directionAngle s) in
  let dzdt := Surface.dfdx fn (pointX s) (pointY s) * dxdt
              + Surface.dfdy fn (pointX s) (pointY s) * dydt in
  drawVectors s
  = if showVectors s then
      (s,
       arrowOps s p
         (Point3D.Build (pointX s + 0.5) (pointY s)
            (Point3D.z p + Surface.dfdx fn (pointX s) (pointY s) * 0.5))
         "#ff9d76" 3
       ++ arrowOps s p
            (Point3D.Build (pointX s) (pointY s + 0.5)
               (Point3D.z p + Surface.dfdy fn (pointX s) (pointY s) * 0.5))
            "#ff9d76" 3
       ++ arrowOps s (Point3D.Build (pointX s) (pointY s) 0)
            (Point3D.Build (pointX s + dxdt * 0.5) (pointY s + dydt * 0.5) 0)
            "#ffe66d" 3
       ++ arrowOps s p
            (Point3D.Build (pointX s + dxdt * 0.5) (pointY s + dydt * 0.5)
               (Point3D.z p + dzdt * 0.5))
            "#00d9ff" 4,
       Ok tt)
    else (s, [], Ok tt).
Proof.
  intros E. cbv zeta. unfold drawVectors. rewrite bind_this.
  destruct (showVectors s); cbn [negb]; [|reflexivity].
  cbv zeta. rewrite E, !bind_call_surface, bind_getCurveDerivative.
  cbn [CurveDerivative.dx CurveDerivative.dy].
  unfold arrowOps, surfacePoint. cbn [Point3D.x Point3D.y Point3D.z].
  repeat match goal with
  | |- context [bind (drawArrow3D ?a ?b ?c ?d ?e ?f ?g ?h) ?k] =>
      rewrite (bind_ok _ k _ _ _ _ (drawArrow3D_eq a b c d e f g h s))
  end.
  rewrite !drawArrow3D_eq. reflexivity.
Qed.

Lemma getChainRuleValues_eq s fn :
  get_property (functions s) (currentFunction s) = VSurface fn ->
  getChainRuleValues s
  = (s, [],
     Ok {| ChainRuleValues.pointX := pointX s;
           ChainRuleValues.pointY := pointY s;
           ChainRuleValues.z := Surface.f fn (pointX s) (pointY s);
           ChainRuleValues.dzdx := Surface.dfdx fn (pointX s) (pointY s);
           ChainRuleValues.dzdy := Surface.dfdy fn (pointX s) (pointY s);
           ChainRuleValues.dxdt := magnitude s * cos (directionAngle s);
           ChainRuleValues.dydt := magnitude s * sin (directionAngle s);
           ChainRuleValues.dzdt :=
             Surface.dfdx fn (pointX s) (pointY s)
             * (magnitude s * cos (directionAngle s))
             + Surface.dfdy fn (pointX s) (pointY s)
               * (magnitude s * sin (directionAngle s)) |}).
Proof.
  intros E. unfold getChainRuleValues.
  rewrite bind_this. cbv zeta. rewrite E.
  rewrite !bind_call_surface, bind_getCurveDerivative, bind_this.
  reflexivity.
Qed.

(** X9. The arrows of [drawVectors] show what [getChainRuleValues] reports: the
    two partial-derivative arrows and the total-derivative arrow start at
    the surface point and end on the tangent plane, the total-derivative
    arrow spans half of (dxdt, dydt, dzdt), and the direction arrow is its
    shadow on the plane z = 0.  When hidden nothing is drawn. *)
Theorem arrows_show_the_chain_rule_values (s : Viz) (fn : Surface.t) :
  get_property (functions s) (currentFunction s) = VSurface fn ->
  exists (v : ChainRuleValues.t) (ex ey base shadow et : Point3D.t),
    getChainRuleValues s = (s, [], Ok v)
    /\ drawVectors s
       = (if showVectors s then
            (s,
             arrowOps s (surfacePoint s fn) ex "#ff9d76" 3
             ++ arrowOps s (surfacePoint s fn) ey "#ff9d76" 3
             ++ arrowOps s base shadow "#ffe66d" 3
             ++ arrowOps s (surfacePoint s fn) et "#00d9ff" 4,
             Ok tt)
          else (s, [], Ok tt))
    /\ Forall (onTangentPlane s fn) [ex; ey; et]
    /\ ex = translate 0.5 0 (0.5 * ChainRuleValues.dzdx v) (surfacePoint s fn)
    /\ ey = translate 0 0.5 (0.5 * ChainRuleValues.dzdy v) (surfacePoint s fn)
    /\ et = translate (0.5 * ChainRuleValues.dxdt v) (0.5 * ChainRuleValues.dydt v)
              (0.5 * ChainRuleValues.dzdt v) (surfacePoint s fn)
    /\ base = Point3D.Build (pointX s) (pointY s) 0
    /\ shadow = Point3D.Build (Point3D.x et) (Point3D.y et) 0.
Proof.
  intros E.
  eexists. exists
    (Point3D.Build (pointX s + 0.5) (pointY s)
       (Point3D.z (surfacePoint s fn) + Surface.dfdx fn (pointX s) (pointY s) * 0.5)),
    (Point3D.Build (pointX s) (pointY s + 0.5)
       (Point3D.z (surfacePoint s fn) + Surface.dfdy fn (pointX s) (pointY s) * 0.5)),
    (Point3D.Build (pointX s) (pointY s) 0),
    (Point3D.Build (pointX s + magnitude s * cos (directionAngle s) * 0.5)
       (pointY s + magnitude s * sin (directionAngle s) * 0.5) 0),
    (Point3D.Build (pointX s + magnitude s * cos (directionAngle s) * 0.5)
       (pointY s + magnitude s * sin (directionAngle s) * 0.5)
       (Point3D.z (surfacePoint s fn)
        + (Surface.dfdx fn (pointX s) (pointY s)
           * (magnitude s * cos (directionAngle s))
           + Surface.dfdy fn (pointX s) (pointY s)
             * (magnitude s * sin (directionAngle s))) * 0.5)).
  split; [exact (getChainRuleValues_eq s fn E)|].
  split; [exact (drawVectors_eq s fn E)|].
  unfold onTangentPlane, tangentHeight, translate, surfacePoint.
  cbn [Point3D.x Point3D.y Point3D.z ChainRuleValues.dzdx ChainRuleValues.dzdy
       ChainRuleValues.dxdt ChainRuleValues.dydt ChainRuleValues.dzdt].
  split; [repeat (apply Forall_cons; [cbn [Point3D.x Point3D.y Point3D.z]; ring|]);
          apply Forall_nil|].
  repeat split; f_equal; ring.
Qed.

Lemma arrows_show_the_chain_rule_values_witness :
  get_property (functions (new_viz 900 700)) (currentFunction (new_viz 900 700))
  = VSurface paraboloid
  /\ exists (v : ChainRuleValues.t) (et : Point3D.t),
       getChainRuleValues (new_viz 900 700) = (new_viz 900 700, [], Ok v)
       /\ onTangentPlane (new_viz 900 700) paraboloid et
       /\ et = translate (0.5 * ChainRuleValues.dxdt v) (0.5 * ChainRuleValues.dydt v)
                 (0.5 * ChainRuleValues.dzdt v)
                 (surfacePoint (new_viz 900 700) paraboloid).
Proof.
  split; [reflexivity|].
  destruct (arrows_show_the_chain_rule_values (new_viz 900 700) paraboloid eq_refl)
    as (v & ex & ey & base & shadow & et & Hv & _ & Hp & _ & _ & Het & _).
  exists v, et. split; [exact Hv|]. split; [|exact Het].
  apply Forall_inv_tail, Forall_inv_tail, Forall_inv in Hp. exact Hp.
Defined.

(** ** render *)

Lemma drawPoint_returns s fn :
  get_property (functions s) (currentFunction s) = VSurface fn ->
  exists t, drawPoint s = (s, t, Ok tt).
Proof.
  intros E. unfold drawPoint. rewrite bind_this. cbv zeta.
  rewrite E, bind_call_surface. eexists. reflexivity.
Qed.

Lemma layer_of (m : M unit) s t : m s = (s, t, Ok tt) -> m s = (s, layer m s, Ok tt).
Proof. intros E. unfold layer. now rewrite E. Qed.

Lemma render_eq s fn :
  get_property (functions s) (currentFunction s) = VSurface fn ->
  render s
  = (s,
     ClearRect 0 0 (canvas_width s) (canvas_height s)
     :: layer drawGrid s ++ layer drawAxes s ++ layer drawSurface s
        ++ layer drawTangentPlane s ++ layer drawCurve s
        ++ layer drawVectors s ++ layer drawPoint s,
     Ok tt).
Proof.
  intros E.
  destruct (returns_drawGrid s) as (t1 & [] & E1). apply layer_of in E1.
  destruct (returns_drawAxes s) as (t2 & [] & E2). apply layer_of in E2.
  pose proof (layer_of _ _ _ (drawSurface_eq s fn E)) as E3.
  assert (E4 : drawTangentPlane s = (s, layer drawTangentPlane s, Ok tt)).
  { pose proof (drawTangentPlane_eq s fn E) as H. cbv zeta in H.
    destruct (showTangentPlane s); exact (layer_of _ _ _ H). }
  assert (E5 : drawCurve s = (s, layer drawCurve s, Ok tt)).
  { pose proof (drawCurve_eq s fn E) as H.
    destruct (showCurve s); exact (layer_of _ _ _ H). }
  assert (E6 : drawVectors s = (s, layer drawVectors s, Ok tt)).
  { pose proof (drawVectors_eq s fn E) as H. cbv zeta in H.
    destruct (showVectors s); exact (layer_of _ _ _ H). }
  destruct (drawPoint_returns s fn E) as (t7 & E7). apply layer_of in E7.
  unfold render. rewrite bind_this, bind_ctx.
  rewrite (bind_ok _ _ _ _ _ _ E1), (bind_ok _ _ _ _ _ _ E2),
    (bind_ok _ _ _ _ _ _ E3), (bind_ok _ _ _ _ _ _ E4),
    (bind_ok _ _ _ _ _ _ E5), (bind_ok _ _ _ _ _ _ E6), E7.
  reflexivity.
Qed.

Lemma paintOrder_length s l : List.length (paintOrder s l) = List.length l.
Proof.
  unfold paintOrder.
  rewrite (Permutation_length (array_sort_perm snd (map (centroidDepth s) l))).
  apply length_map.
Qed.

Lemma grid_loop_ticks : range_le 16 (Ropp 2) 2 0.5 = gridTicks.
Proof. exact grid_loop_values. Qed.

Lemma drawGrid_eq s :
  drawGrid s
  = if showGrid s then
      (s,
       [ SetStrokeStyle (Literal "rgba(74, 85, 104, 0.3)"); SetLineWidth 1 ]
       ++ flat_map (fun y => segmentOps s (Point3D.Build (- 2) y 0)
                               (Point3D.Build 2 y 0)) gridTicks
       ++ flat_map (fun x => segmentOps s (Point3D.Build x (- 2) 0)
                               (Point3D.Build x 2 0)) gridTicks,
       Ok tt)
    else (s, [], Ok tt).
Proof.
  unfold drawGrid. rewrite bind_this.
  destruct (showGrid s); cbn [negb]; [|reflexivity].
  cbv zeta. rewrite grid_loop_ticks. reflexivity.
Qed.

Lemma layer_if (m : M unit) s (b : bool) t :
  m s = (if b then (s, t, Ok tt) else (s, [], Ok tt)) ->
  layer m s = if b then t else [].
Proof. intros E. unfold layer. rewrite E. now destruct b. Qed.

(** Each layer is decided by its own toggle and by no other: setting the
    four toggles to any values leaves axes, surface and point as they were
    and makes each of the other layers what it is when shown, or empty. *)
Lemma layers_follow_their_own_toggle s fn (g c t v : bool) :
  get_property (functions s) (currentFunction s) = VSurface fn ->
  let s' := set_showVectors v (set_showTangentPlane t
              (set_showCurve c (set_showGrid g s))) in
  layer drawGrid s' = (if g then layer drawGrid (set_showGrid true s) else [])
  /\ layer drawAxes s' = layer drawAxes s
  /\ layer drawSurface s' = layer drawSurface s
  /\ layer drawTangentPlane s'
     = (if t then layer drawTangentPlane (set_showTangentPlane true s) else [])
  /\ layer drawCurve s'
     = (if c then layer drawCurve (set_showCurve true s) else [])
  /\ layer drawVectors s'
     = (if v then layer drawVectors (set_showVectors true s) else [])
  /\ layer drawPoint s' = layer drawPoint s.
Proof.
  intros E s'.
  assert (E' : get_property (functions s') (currentFunction s') = VSurface fn)
    by exact E.
  split.
  { pose proof (drawGrid_eq s') as H1.
    pose proof (drawGrid_eq (set_showGrid true s)) as H2.
    apply layer_if in H1. apply layer_if in H2.
    rewrite H1, H2. unfold s'.
    cbn [showGrid set_showVectors set_showTangentPlane set_showCurve
         set_showGrid]. destruct g; reflexivity. }
  split; [reflexivity|].
  split.
  { unfold layer. rewrite (drawSurface_eq s' fn E'), (drawSurface_eq s fn E).
    cbn [trace_of fst snd]. generalize (meshOf fn). intros l. reflexivity. }
  split.
  { pose proof (drawTangentPlane_eq s' fn E') as H1.
    pose proof (drawTangentPlane_eq (set_showTangentPlane true s) fn E) as H2.
    cbv zeta in H1, H2. apply layer_if in H1. apply layer_if in H2.
    rewrite H1, H2. unfold s'.
    cbn [showTangentPlane set_showVectors set_showTangentPlane set_showCurve
         set_showGrid]. destruct t; reflexivity. }
  split.
  { pose proof (drawCurve_eq s' fn E') as H1.
    pose proof (drawCurve_eq (set_showCurve true s) fn E) as H2.
    apply layer_if in H1. apply layer_if in H2.
    rewrite H1, H2. unfold s'.
    cbn [showCurve set_showVectors set_showTangentPlane set_showCurve
         set_showGrid]. destruct c; reflexivity. }
  split.
  { pose proof (drawVectors_eq s' fn E') as H1.
    pose proof (drawVectors_eq (set_showVectors true s) fn E) as H2.
    cbv zeta in H1, H2. apply layer_if in H1. apply layer_if in H2.
    rewrite H1, H2. unfold s'.
    cbn [showVectors set_showVectors set_showTangentPlane set_showCurve
         set_showGrid]. destruct v; reflexivity. }
  unfold layer, drawPoint. rewrite !bind_this. cbv zeta.
  change (get_property (functions s') (currentFunction s'))
    with (get_property (functions s) (currentFunction s)).
  rewrite E, !bind_call_surface. reflexivity.
Qed.

Lemma shown_layers_are_not_empty s fn :
  get_property (functions s) (currentFunction s) = VSurface fn ->
  layer drawGrid (set_showGrid true s) <> []
  /\ layer drawTangentPlane (set_showTangentPlane true s) <> []
  /\ layer drawCurve (set_showCurve true s) <> []
  /\ layer drawVectors (set_showVectors true s) <> [].
Proof.
  intros E.
  split.
  { pose proof (drawGrid_eq (set_showGrid true s)) as H.
    apply layer_if in H. rewrite H.
    cbn [showGrid set_showGrid app]. discriminate. }
  split.
  { pose proof (drawTangentPlane_eq (set_showTangentPlane true s) fn E) as H.
    cbv zeta in H. apply layer_if in H. rewrite H.
    cbn [showTangentPlane set_showTangentPlane]. discriminate. }
  split.
  { pose proof (drawCurve_eq (set_showCurve true s) fn E) as H.
    apply layer_if in H. rewrite H.
    cbn [showCurve set_showCurve app]. discriminate. }
  pose proof (drawVectors_eq (set_showVectors true s) fn E) as H.
  cbv zeta in H. apply layer_if in H. rewrite H.
  cbn [showVectors set_showVectors]. unfold arrowOps.
  rewrite !drawArrow3D_eq. cbn [trace_of fst snd app]. discriminate.
Qed.

Lemma hidden_layers s :
  (showGrid s = false -> layer drawGrid s = [])
  /\ (showTangentPlane s = false -> layer drawTangentPlane s = [])
  /\ (showCurve s = false -> layer drawCurve s = [])
  /\ (showVectors s = false -> layer drawVectors s = []).
Proof.
  unfold layer, drawGrid, drawTangentPlane, drawCurve, drawVectors.
  rewrite !bind_this.
  repeat split; intros ->; reflexivity.
Qed.

(** X10. On an instance whose current key names a table entry, [render] returns
    normally, changes no field, and paints in this order: a clear of the
    whole canvas, grid, axes, surface, tangent plane, curve, arrows, point.
    A toggle that is off empties its own layer and nothing else: whatever
    the four toggles are set to, axes, surface and point are painted as
    before, and each of grid, tangent plane, curve and arrows is either
    empty or what it is when shown, which is not empty, as its own toggle
    says. *)
Theorem render_paints_the_layers_in_order (s : Viz) (fn : Surface.t) :
  get_property (functions s) (currentFunction s) = VSurface fn ->
  render s
  = (s,
     ClearRect 0 0 (canvas_width s) (canvas_height s)
     :: layer drawGrid s ++ layer drawAxes s ++ layer drawSurface s
        ++ layer drawTangentPlane s ++ layer drawCurve s
        ++ layer drawVectors s ++ layer drawPoint s,
     Ok tt)
  /\ (showGrid s = false -> layer drawGrid s = [])
  /\ (showTangentPlane s = false -> layer drawTangentPlane s = [])
  /\ (showCurve s = false -> layer drawCurve s = [])
  /\ (showVectors s = false -> layer drawVectors s = [])
  /\ In Stroke (layer drawAxes s)
  /\ List.length (filter (fun op => match op with Fill => true | _ => false end)
                    (layer drawSurface s)) = 1250%nat
  /\ In Fill (layer drawPoint s)
  /\ (forall g c t v : bool,
        let s' := set_showVectors v (set_showTangentPlane t
                    (set_showCurve c (set_showGrid g s))) in
        layer drawGrid s'
        = (if g then layer drawGrid (set_showGrid true s) else [])
        /\ layer drawAxes s' = layer drawAxes s
        /\ layer drawSurface s' = layer drawSurface s
        /\ layer drawTangentPlane s'
           = (if t then layer drawTangentPlane (set_showTangentPlane true s)
              else [])
        /\ layer drawCurve s'
           = (if c then layer drawCurve (set_showCurve true s) else [])
        /\ layer drawVectors s'
           = (if v then layer drawVectors (set_showVectors true s) else [])
        /\ layer drawPoint s' = layer drawPoint s)
  /\ layer drawGrid (set_showGrid true s) <> []
  /\ layer drawTangentPlane (set_showTangentPlane true s) <> []
  /\ layer drawCurve (set_showCurve true s) <> []
  /\ layer drawVectors (set_showVectors true s) <> [].
Proof.
  intros E. split; [exact (render_eq s fn E)|].
  destruct (hidden_layers s) as (H1 & H2 & H3 & H4).
  do 4 (split; [assumption|]).
  split.
  { destruct (drawAxes_strokes s) as (t & Et & Hin). unfold layer. now rewrite Et. }
  split.
  { unfold layer. rewrite (drawSurface_eq s fn E). cbn [trace_of fst snd].
    rewrite <- (meshOf_length fn), <- (paintOrder_length s (meshOf fn)).
    generalize (paintOrder s (meshOf fn)). intros l.
    induction l as [|d l IH]; [reflexivity|].
    cbn [flat_map]. rewrite filter_app, length_app, IH, triangleOps_eq.
    reflexivity. }
  split.
  { unfold layer, drawPoint. rewrite bind_this. cbv zeta.
    rewrite E, bind_call_surface. cbn. tauto. }
  split; [intros g c t v; exact (layers_follow_their_own_toggle s fn g c t v E)|].
  exact (shown_layers_are_not_empty s fn E).
Qed.

Lemma render_paints_the_layers_in_order_witness :
  get_property (functions (new_viz 900 700)) (currentFunction (new_viz 900 700))
  = VSurface paraboloid
  /\ outcome_of (render (new_viz 900 700)) = Ok tt.
Proof.
  split; [reflexivity|].
  destruct (render_paints_the_layers_in_order (new_viz 900 700) paraboloid eq_refl)
    as [E _].
  rewrite E. reflexivity.
Defined.

Lemma render_outcome s :
  outcome_of (render s)
  = match get_property (functions s) (currentFunction s) with
    | VSurface _ => Ok tt
    | VInherited _ | VUndefined => Throw TypeError
    end.
Proof.
  destruct (get_property (functions s) (currentFunction s)) as [|fn|key] eqn:E.
  - destruct (render_throws s) as (rest & Er); [rewrite E; discriminate|].
    now rewrite Er.
  - now rewrite (render_eq s fn E).
  - destruct (render_throws s) as (rest & Er); [rewrite E; discriminate|].
    now rewrite Er.
Qed.

(** X11. [render] returns normally exactly when the current key names a table
    entry; otherwise it throws a TypeError.  Either way no field changes. *)
Theorem render_returns_iff_entry (s : Viz) :
  outcome_of (render s)
  = match get_property (functions s) (currentFunction s) with
    | VSurface _ => Ok tt
    | VInherited _ | VUndefined => Throw TypeError
    end
  /\ state_of (render s) = s.
Proof. split; [apply render_outcome | apply ro_render]. Qed.

(** X12. Without a table entry under the current key, [getChainRuleValues]
    throws a TypeError, and does so before anything is changed or drawn. *)
Theorem getChainRuleValues_throws_without_entry (s : Viz) :
  (forall fn, get_property (functions s) (currentFunction s) <> VSurface fn) ->
  getChainRuleValues s = (s, [], Throw TypeError).
Proof.
  intros H. unfold getChainRuleValues. rewrite bind_this. cbv zeta.
  apply bind_throw.
  destruct (get_property (functions s) (currentFunction s)) as [|fn|key];
    [reflexivity | now destruct (H fn) | reflexivity].
Qed.

Lemma getChainRuleValues_throws_without_entry_witness :
  (forall fn,
     get_property (functions (set_currentFunction "toString" (new_viz 900 700)))
       (currentFunction (set_currentFunction "toString" (new_viz 900 700)))
     <> VSurface fn)
  /\ outcome_of (getChainRuleValues (set_currentFunction "toString" (new_viz 900 700)))
     = Throw TypeError.
Proof.
  assert (H : forall fn,
     get_property (functions (set_currentFunction "toString" (new_viz 900 700)))
       (currentFunction (set_currentFunction "toString" (new_viz 900 700)))
     <> VSurface fn) by (intros fn; discriminate).
  split; [exact H|].
  rewrite (getChainRuleValues_throws_without_entry _ H). reflexivity.
Defined.

(** ** The grid *)

(** X13. When the grid is shown, [drawGrid] strokes eighteen segments across the
    square [-2,2] x [-2,2] of the plane z = 0: nine along x at y = -2,
    -1.5, ..., 2 and then nine along y at the same values of x. *)
Theorem drawGrid_strokes_the_half_unit_lattice (s : Viz) :
  drawGrid s
  = if showGrid s then
      (s,
       [ SetStrokeStyle (Literal "rgba(74, 85, 104, 0.3)"); SetLineWidth 1 ]
       ++ flat_map (fun y => segmentOps s (Point3D.Build (- 2) y 0)
                               (Point3D.Build 2 y 0)) gridTicks
       ++ flat_map (fun x => segmentOps s (Point3D.Build x (- 2) 0)
                               (Point3D.Build x 2 0)) gridTicks,
       Ok tt)
    else (s, [], Ok tt).
Proof. apply drawGrid_eq. Qed.

(** ** Public methods *)

(** X14. [setFunction] ignores a key exactly when the table read under it is
    [undefined]: no own entry and no property of [Object.prototype]. *)
Theorem setFunction_ignores_exactly_undefined (funcName : string) (s : Viz) :
  setFunction funcName s = (s, [], Ok tt)
  <-> get_property (functions s) funcName = VUndefined.
Proof.
  split.
  - intros H. rewrite setFunction_eq in H.
    destruct (get_property (functions s) funcName) as [|fn|key];
      [reflexivity| |]; cbn [truthy] in H;
      destruct (render_clears_then_draws (set_currentFunction funcName s))
        as (rest & E & _);
      apply (f_equal trace_of) in H; rewrite E in H; discriminate H.
  - apply setFunction_undefined_key.
Qed.

Lemma own_property_get tbl key fn :
  own_property tbl key = Some fn -> get_property tbl key = VSurface fn.
Proof. intros H. unfold get_property. now rewrite H. Qed.

(** X15. Configure, then read back: after [setFunction] with a key of the table,
    [setPoint(x, y)] and [setDirection(angle, mag)], every call having
    returned normally, [getChainRuleValues] reports the point just set, the
    values of that entry there, and the velocity mag (cos angle, sin angle). *)
Theorem configure_then_read_back (s : Viz) (key : string) (fn : Surface.t)
    (x y angle mag : R) :
  own_property (functions s) key = Some fn ->
  let r1 := setFunction key s in
  let r2 := setPoint x y (state_of r1) in
  let r3 := setDirection angle (Some mag) (state_of r2) in
  outcome_of r1 = Ok tt /\ outcome_of r2 = Ok tt /\ outcome_of r3 = Ok tt
  /\ getChainRuleValues (state_of r3)
     = (state_of r3, [],
        Ok {| ChainRuleValues.pointX := x;
              ChainRuleValues.pointY := y;
              ChainRuleValues.z := Surface.f fn x y;
              ChainRuleValues.dzdx := Surface.dfdx fn x y;
              ChainRuleValues.dzdy := Surface.dfdy fn x y;
              ChainRuleValues.dxdt := mag * cos angle;
              ChainRuleValues.dydt := mag * sin angle;
              ChainRuleValues.dzdt :=
                Surface.dfdx fn x y * (mag * cos angle)
                + Surface.dfdy fn x y * (mag * sin angle) |}).
Proof.
  intros Hown. apply own_property_get in Hown. cbv zeta.
  rewrite setFunction_eq, Hown. cbn [truthy].
  set (s1 := set_currentFunction key s).
  assert (E1 : get_property (functions s1) (currentFunction s1) = VSurface fn)
    by exact Hown.
  rewrite (render_eq s1 fn E1). cbn [state_of outcome_of fst snd].
  unfold setPoint. rewrite !bind_assign.
  set (s2 := set_pointY y (set_pointX x s1)).
  assert (E2 : get_property (functions s2) (currentFunction s2) = VSurface fn)
    by exact Hown.
  rewrite (render_eq s2 fn E2). cbn [state_of outcome_of fst snd].
  unfold setDirection. rewrite !bind_assign.
  set (s3 := set_magnitude mag (set_directionAngle angle s2)).
  assert (E3 : get_property (functions s3) (currentFunction s3) = VSurface fn)
    by exact Hown.
  rewrite (render_eq s3 fn E3). cbn [state_of outcome_of fst snd].
  repeat split. exact (getChainRuleValues_eq s3 fn E3).
Qed.

Lemma configure_then_read_back_witness :
  own_property (functions (new_viz 900 700)) "saddle" = Some saddle
  /\ exists v s3,
       getChainRuleValues s3 = (s3, [], Ok v)
       /\ ChainRuleValues.dzdt v
          = 2 * 1 * (1.5 * cos (PI / 4)) + - 2 * 1 * (1.5 * sin (PI / 4)).
Proof.
  split; [reflexivity|].
  destruct (configure_then_read_back (new_viz 900 700) "saddle" saddle
              1 1 (PI / 4) 1.5 eq_refl) as (_ & _ & _ & E).
  do 2 eexists. split; [exact E | reflexivity].
Defined.

Lemma viz_eta s :
  s = mkViz (canvas_width s) (canvas_height s) (cameraAngleX s) (cameraAngleY s)
        (cameraDistance s) (isDragging s) (lastMouseX s) (lastMouseY s)
        (pointX s) (pointY s) (tParam s) (directionAngle s) (magnitude s)
        (showGrid s) (showCurve s) (showTangentPlane s) (showVectors s)
        (currentFunction s) (functions s).
Proof. now destruct s. Qed.

(** X16. Each toggle leaves the instance with its own flag negated and every
    other field as it was, so toggling twice gives back the instance as it
    was. *)
Theorem toggles_are_involutions (s : Viz) :
  state_of (toggleGrid s) = set_showGrid (negb (showGrid s)) s
  /\ state_of (toggleCurve s) = set_showCurve (negb (showCurve s)) s
  /\ state_of (toggleTangentPlane s)
     = set_showTangentPlane (negb (showTangentPlane s)) s
  /\ state_of (toggleVectors s) = set_showVectors (negb (showVectors s)) s
  /\ state_of (toggleGrid (state_of (toggleGrid s))) = s
  /\ state_of (toggleCurve (state_of (toggleCurve s))) = s
  /\ state_of (toggleTangentPlane (state_of (toggleTangentPlane s))) = s
  /\ state_of (toggleVectors (state_of (toggleVectors s))) = s.
Proof.
  unfold toggleGrid, toggleCurve, toggleTangentPlane, toggleVectors.
  repeat (progress rewrite ?bind_assign, ?ro_render).
  destruct s as [w h ax ay d dr mx my px py tp da mg g c t v cf fs].
  unfold set_showGrid, set_showCurve, set_showTangentPlane, set_showVectors.
  cbn [canvas_width canvas_height cameraAngleX cameraAngleY cameraDistance
       isDragging lastMouseX lastMouseY pointX pointY tParam directionAngle
       magnitude showGrid showCurve showTangentPlane showVectors
       currentFunction functions].
  rewrite !Bool.negb_involutive. repeat split.
Qed.

(** ** Mouse and wheel *)

Lemma last_cons_default {A} (l : list A) :
  forall a d d', last (a :: l) d = last (a :: l) d'.
Proof.
  induction l as [|b l IH]; intros a d d'; [reflexivity|].
  change (last (b :: l) d = last (b :: l) d'). apply IH.
Qed.

Lemma after_is_last_dispatch events :
  forall s, after events s = last (dispatch events s) s.
Proof.
  induction events as [|e rest IH]; intros s; [reflexivity|].
  cbn [after fold_left dispatch]. fold (after rest (state_of (handle e s))).
  rewrite IH. generalize (state_of (handle e s)). intros s1.
  destruct (dispatch rest s1) as [|s2 l]; [reflexivity|].
  change (last (s2 :: l) s1 = last (s2 :: l) s). apply last_cons_default.
Qed.

Lemma handle_scene e s : sceneOf (state_of (handle e s)) = sceneOf s.
Proof.
  destruct e as [cx cy|cx cy| |dy]; cbn [handle].
  - now rewrite on_mousedown_eq.
  - rewrite on_mousemove_eq. destruct (isDragging s); [|reflexivity].
    now rewrite ro_render.
  - reflexivity.
  - now rewrite on_wheel_eq, ro_render.
Qed.

(** X17. The mousedown, mousemove, mouseup and wheel listeners write the
    camera and the drag state only: each of them, and so any sequence of
    them, leaves the evaluation point, the direction, the toggles, the
    current function, the table and the canvas size as they were.  (The
    click listener is not one of the four.) *)
Theorem camera_listeners_leave_the_scene_alone (events : list Event) (s : Viz) :
  (forall clientX clientY,
     sceneOf (state_of (on_mousedown clientX clientY s)) = sceneOf s
     /\ sceneOf (state_of (on_mousemove clientX clientY s)) = sceneOf s)
  /\ sceneOf (state_of (on_mouseup s)) = sceneOf s
  /\ (forall deltaY, sceneOf (state_of (on_wheel deltaY s)) = sceneOf s)
  /\ Forall (fun s' => sceneOf s' = sceneOf s) (dispatch events s)
  /\ sceneOf (after events s) = sceneOf s.
Proof.
  split; [intros cx cy; split;
          [exact (handle_scene (MouseDown cx cy) s)
          | exact (handle_scene (MouseMove cx cy) s)]|].
  split; [exact (handle_scene MouseUp s)|].
  split; [intros dy; exact (handle_scene (Wheel dy) s)|].
  split.
  - revert s. induction events as [|e rest IH]; intros s; cbn [dispatch].
    + constructor.
    + constructor; [apply handle_scene|].
      eapply Forall_impl; [|apply IH]. cbn beta. intros s' ->. apply handle_scene.
  - revert s. induction events as [|e rest IH]; intros s; [reflexivity|].
    cbn [after fold_left]. fold (after rest (state_of (handle e s))).
    rewrite IH. apply handle_scene.
Qed.

Lemma handle_entry e s v :
  get_property (functions s) (currentFunction s) = v ->
  get_property (functions (state_of (handle e s)))
    (currentFunction (state_of (handle e s))) = v.
Proof.
  intros <-. pose proof (handle_scene e s) as H. unfold sceneOf in H.
  injection H as _ _ _ _ _ _ _ _ _ _ _ Hc Hf. now rewrite Hc, Hf.
Qed.

Lemma handle_outcome e s :
  outcome_of (handle e s) = Ok tt
  \/ (outcome_of (handle e s) = Throw TypeError
      /\ forall fn, get_property (functions s) (currentFunction s) <> VSurface fn).
Proof.
  assert (R : forall s', get_property (functions s') (currentFunction s')
                         = get_property (functions s) (currentFunction s) ->
              outcome_of (render s') = Ok tt
              \/ (outcome_of (render s') = Throw TypeError
                  /\ forall fn, get_property (functions s) (currentFunction s)
                                <> VSurface fn)).
  { intros s' Hs'. pose proof (render_outcome s') as Ho.
    rewrite Hs' in Ho.
    destruct (get_property (functions s) (currentFunction s));
      [right | left | right]; (split; [exact Ho | discriminate]) || exact Ho. }
  destruct e as [cx cy|cx cy| |dy]; cbn [handle].
  - left. now rewrite on_mousedown_eq.
  - rewrite on_mousemove_eq. destruct (isDragging s); [|now left].
    apply R. reflexivity.
  - now left.
  - rewrite on_wheel_eq. apply R. reflexivity.
Qed.

Lemma outcomes_ok events :
  forall s fn,
    get_property (functions s) (currentFunction s) = VSurface fn ->
    Forall (fun o => o = Ok tt) (outcomes events s).
Proof.
  induction events as [|e rest IH]; intros s fn E; cbn [outcomes].
  - constructor.
  - constructor.
    + destruct (handle_outcome e s) as [H|[_ H]]; [exact H | now destruct (H fn)].
    + apply (IH _ fn). now apply handle_entry.
Qed.

(** X18. On a fresh instance no handler ever throws, whatever events arrive. *)
Theorem fresh_instance_handlers_never_throw (width height : R)
    (events : list Event) :
  Forall (fun o => o = Ok tt) (outcomes events (new_viz width height)).
Proof. apply (outcomes_ok events _ paraboloid). reflexivity. Qed.

(** X19. Mouse and wheel cannot repair an instance whose current key names no
    entry: after any events [render] still throws, and so does every wheel
    event, although the camera keeps following it. *)
Theorem broken_instance_stays_broken (s : Viz) (events : list Event) (deltaY : R) :
  (forall fn, get_property (functions s) (currentFunction s) <> VSurface fn) ->
  outcome_of (render (after events s)) = Throw TypeError
  /\ outcome_of (on_wheel deltaY (after events s)) = Throw TypeError
  /\ cameraDistance (state_of (on_wheel deltaY (after events s)))
     = Rmax 3 (Rmin 15 (cameraDistance (after events s) + deltaY * 0.01)).
Proof.
  intros H.
  assert (Hafter : forall fn,
            get_property (functions (after events s))
              (currentFunction (after events s)) <> VSurface fn).
  { revert s H. induction events as [|e rest IH]; intros s H; [exact H|].
    cbn [after fold_left]. apply IH. intros fn.
    rewrite (handle_entry e s _ eq_refl). apply H. }
  assert (R : forall s', (forall fn, get_property (functions s') (currentFunction s')
                                     <> VSurface fn) ->
                         outcome_of (render s') = Throw TypeError).
  { intros s' Hs'. destruct (render_throws s' Hs') as (rest & E). now rewrite E. }
  split; [now apply R|].
  rewrite on_wheel_eq. split; [apply R; exact Hafter | now rewrite ro_render].
Qed.

Lemma broken_instance_stays_broken_witness :
  (forall fn,
     get_property (functions (set_currentFunction "toString" (new_viz 900 700)))
       (currentFunction (set_currentFunction "toString" (new_viz 900 700)))
     <> VSurface fn)
  /\ outcome_of (render (after [Wheel 100; MouseDown 0 0; MouseMove 5 5]
                           (set_currentFunction "toString" (new_viz 900 700))))
     = Throw TypeError.
Proof.
  assert (H : forall fn,
     get_property (functions (set_currentFunction "toString" (new_viz 900 700)))
       (currentFunction (set_currentFunction "toString" (new_viz 900 700)))
     <> VSurface fn) by (intros fn; discriminate).
  split; [exact H|].
  exact (proj1 (broken_instance_stays_broken _
                  [Wheel 100; MouseDown 0 0; MouseMove 5 5] 0 H)).
Defined.

Lemma moves_during_a_drag moves :
  forall s,
    isDragging s = true ->
    let s' := after (map (fun p => MouseMove (fst p) (snd p)) moves) s in
    isDragging s' = true
    /\ cameraDistance s' = cameraDistance s
    /\ cameraAngleY s' - lastMouseX s' * 0.01
       = cameraAngleY s - lastMouseX s * 0.01
    /\ lastMouseX s' = fst (last moves (lastMouseX s, lastMouseY s)).
Proof.
  induction moves as [|[cx cy] rest IH]; intros s Hd; cbv zeta.
  - repeat split; trivial.
  - cbn [map after fold_left handle fst snd].
    fold (after (map (fun p => MouseMove (fst p) (snd p)) rest)
            (state_of (on_mousemove cx cy s))).
    rewrite on_mousemove_eq, Hd, ro_render.
    destruct (IH (rotated cx cy s) Hd) as (H1 & H2 & H3 & H4).
    split; [exact H1|]. split; [exact H2|]. split.
    + rewrite H3. cbn [rotated cameraAngleY lastMouseX set_lastMouseY
        set_lastMouseX set_cameraAngleX set_cameraAngleY]. ring.
    + rewrite H4. cbn [rotated lastMouseX lastMouseY set_lastMouseY
        set_lastMouseX set_cameraAngleX set_cameraAngleY].
      destruct rest as [|q rest']; [reflexivity|].
      change (fst (last (q :: rest') (cx, cy))
              = fst (last (q :: rest') (lastMouseX s, lastMouseY s))).
      f_equal. apply last_cons_default.
Qed.

(** X20. During a drag the yaw follows the mouse: whatever path the mouse takes,
    the yaw ends at its value at mousedown plus 0.01 times the horizontal
    distance from the mousedown position to the last position; it is never
    clamped, and the camera distance is untouched. *)
Theorem drag_turns_the_yaw_by_the_horizontal_travel (s : Viz) (x0 y0 : R)
    (moves : list (R * R)) :
  let s' := after (drag x0 y0 moves) s in
  cameraAngleY s' = cameraAngleY s + (fst (last moves (x0, y0)) - x0) * 0.01
  /\ cameraDistance s' = cameraDistance s
  /\ isDragging s' = true.
Proof.
  cbv zeta. unfold drag. cbn [after fold_left handle].
  fold (after (map (fun p => MouseMove (fst p) (snd p)) moves)
          (state_of (on_mousedown x0 y0 s))).
  rewrite on_mousedown_eq. cbn [state_of fst].
  destruct (moves_during_a_drag moves
              (set_lastMouseY y0 (set_lastMouseX x0 (set_isDragging true s)))
              eq_refl) as (H1 & H2 & H3 & H4).
  cbn [cameraAngleY cameraDistance lastMouseX lastMouseY set_lastMouseY
       set_lastMouseX set_isDragging] in H2, H3, H4.
  split; [|split; [exact H2 | exact H1]].
  rewrite <- H4. lra.
Qed.

(** X21. Once the button is released, mouse moves neither change the instance
    nor draw, however many there are. *)
Theorem released_button_stops_the_rotation (s : Viz) (moves : list (R * R)) :
  after (MouseUp :: map (fun p => MouseMove (fst p) (snd p)) moves) s
  = set_isDragging false s
  /\ Forall (fun p =>
               on_mousemove (fst p) (snd p) (set_isDragging false s)
               = (set_isDragging false s, [], Ok tt))
            moves.
Proof.
  assert (Hm : forall p, on_mousemove (fst p) (snd p) (set_isDragging false s)
                         = (set_isDragging false s, [], Ok tt)).
  { intros p. now rewrite on_mousemove_eq. }
  split; [|apply Forall_forall; intros p _; apply Hm].
  cbn [after fold_left handle]. change (state_of (on_mouseup s))
    with (set_isDragging false s).
  induction moves as [|p rest IH]; [reflexivity|].
  cbn [map fold_left handle]. now rewrite Hm.
Qed.

Lemma clamp_inside lo hi v : lo <= v <= hi -> Rmax lo (Rmin hi v) = v.
Proof. intros [H1 H2]. rewrite Rmin_right by exact H2. now apply Rmax_right. Qed.

(** X22. Zooming by a wheel step and then by the opposite step restores the
    instance, provided the distance stays inside [3, 15] on the way. *)
Theorem wheel_there_and_back (s : Viz) (deltaY : R) :
  3 <= cameraDistance s <= 15 ->
  3 <= cameraDistance s + deltaY * 0.01 <= 15 ->
  after [Wheel deltaY; Wheel (- deltaY)] s = s.
Proof.
  intros Hd Hz. cbn [after fold_left handle].
  rewrite !on_wheel_eq, !ro_render. unfold zoomed.
  cbn [cameraDistance set_cameraDistance].
  rewrite (clamp_inside 3 15 (cameraDistance s + deltaY * 0.01)) by exact Hz.
  rewrite (clamp_inside 3 15 (cameraDistance s + deltaY * 0.01 + - deltaY * 0.01))
    by lra.
  replace (cameraDistance s + deltaY * 0.01 + - deltaY * 0.01)
    with (cameraDistance s) by ring.
  unfold set_cameraDistance.
  cbn [canvas_width canvas_height cameraAngleX cameraAngleY cameraDistance
       isDragging lastMouseX lastMouseY pointX pointY tParam directionAngle
       magnitude showGrid showCurve showTangentPlane showVectors
       currentFunction functions].
  symmetry. apply viz_eta.
Qed.

Lemma wheel_there_and_back_witness :
  3 <= cameraDistance (new_viz 900 700) <= 15
  /\ 3 <= cameraDistance (new_viz 900 700) + 100 * 0.01 <= 15
  /\ after [Wheel 100; Wheel (- 100)] (new_viz 900 700) = new_viz 900 700.
Proof.
  assert (H1 : 3 <= cameraDistance (new_viz 900 700) <= 15) by (cbn; lra).
  assert (H2 : 3 <= cameraDistance (new_viz 900 700) + 100 * 0.01 <= 15)
    by (cbn; lra).
  split; [exact H1|]. split; [exact H2|].
  exact (wheel_there_and_back (new_viz 900 700) 100 H1 H2).
Defined.

(** ** Shading, again *)

Lemma normal_translate dx dy dz tri :
  normal (mapTriangle (translate dx dy dz) tri) = normal tri.
Proof.
  unfold normal, mapTriangle, translate.
  cbn [Triangle.p1 Triangle.p2 Triangle.p3 Point3D.x Point3D.y Point3D.z].
  apply f_equal2; [apply f_equal2|]; ring.
Qed.

Lemma normal_scale k tri :
  normal (mapTriangle (scale k) tri)
  = (k * k * fst (fst (normal tri)), k * k * snd (fst (normal tri)),
     k * k * snd (normal tri)).
Proof.
  unfold normal, mapTriangle, scale.
  cbn [Triangle.p1 Triangle.p2 Triangle.p3 Point3D.x Point3D.y Point3D.z fst snd].
  apply f_equal2; [apply f_equal2|]; ring.
Qed.

(** X23. The intensity of a triangle depends on its orientation only: moving
    the triangle, or scaling it about the origin by a factor that is not
    zero, leaves it as it was. *)
Theorem lightDot_ignores_position_and_size (tri : Triangle.t) (dx dy dz k : R) :
  k <> 0 ->
  lightDot (mapTriangle (translate dx dy dz) tri) = lightDot tri
  /\ lightDot (mapTriangle (scale k) tri) = lightDot tri.
Proof.
  intros Hk. unfold lightDot. rewrite normal_translate, normal_scale.
  split; [reflexivity|].
  destruct (normal tri) as [[nx ny] nz]. cbn [fst snd].
  f_equal. f_equal. f_equal.
  replace (k * k * nx * (k * k * nx) + k * k * ny * (k * k * ny)
           + k * k * nz * (k * k * nz))
    with (k * k * (k * k) * (nx * nx + ny * ny + nz * nz)) by ring.
  assert (Hk2 : 0 < k * k) by nra.
  rewrite sqrt_mult, sqrt_square by nra.
  destruct (Req_dec (sqrt (nx * nx + ny * ny + nz * nz)) 0) as [H0|H0].
  - rewrite H0, Rmult_0_r. unfold Rdiv. rewrite Rinv_0. ring.
  - field. split; lra.
Qed.

Lemma lightDot_ignores_position_and_size_witness :
  2 <> 0
  /\ lightDot (mapTriangle (scale 2) litTriangle) = lightDot litTriangle.
Proof.
  assert (H : 2 <> 0) by lra.
  split; [exact H|].
  exact (proj2 (lightDot_ignores_position_and_size litTriangle 0 0 0 2 H)).
Defined.

(** X24. Whatever the surface, every triangle of the mesh faces upwards, its
    normal having the z-component 16/625; none is degenerate, and its
    intensity lies between 0.2 and 0.5 + 0.5 sqrt 6. *)
Theorem mesh_triangles_face_up (fn : Surface.t) (tri : Triangle.t) :
  In tri (meshOf fn) ->
  snd (normal tri) = 16 / 625
  /\ normal tri <> (0, 0, 0)
  /\ 0.2 <= lightDot tri <= 0.5 + 0.5 * sqrt 6.
Proof.
  intros Hin. pose proof (mesh_normal_z fn tri Hin) as Hz.
  split; [exact Hz|]. split; [|now apply (mesh_lightDot_bounds fn)].
  intros C. rewrite C in Hz. cbn [snd] in Hz. lra.
Qed.

Lemma mesh_triangles_face_up_witness :
  In levelTriangle (meshOf paraboloid)
  /\ snd (normal levelTriangle) = 16 / 625.
Proof.
  split; [apply levelTriangle_in_mesh|].
  apply (mesh_triangles_face_up paraboloid), levelTriangle_in_mesh.
Defined.

Lemma builtin_dzdt_is_the_derivative_witness :
  In hill (map snd builtin_functions)
  /\ derivable_pt_lim
       (fun t => Surface.f hill (CurvePoint.x (getCurvePoint (new_viz 900 700) t))
                   (CurvePoint.y (getCurvePoint (new_viz 900 700) t)))
       (tParam (new_viz 900 700))
       (Surface.dfdx hill (pointX (new_viz 900 700)) (pointY (new_viz 900 700))
        * (magnitude (new_viz 900 700) * cos (directionAngle (new_viz 900 700)))
        + Surface.dfdy hill (pointX (new_viz 900 700)) (pointY (new_viz 900 700))
          * (magnitude (new_viz 900 700) * sin (directionAngle (new_viz 900 700)))).
Proof.
  assert (H : In hill (map snd builtin_functions)) by (cbn; tauto).
  split; [exact H|].
  exact (builtin_dzdt_is_the_derivative (new_viz 900 700) hill H).
Defined.

(** ** Axes *)

(** X25. The three axes are stroked from the centre of the canvas, where the
    origin projects, to the projections of (3,0,0), (0,3,0) and (0,0,3), in
    red, green and blue, whatever the toggles. *)
Theorem axes_start_at_the_centre (s : Viz) :
  cameraDistance s <> 0 ->
  let axis color (tip : Point3D.t) :=
    [ SetStrokeStyle (Literal color); SetLineWidth 2; BeginPath;
      MoveTo (canvas_width s / 2) (canvas_height s / 2);
      LineTo (Point2D.x (project s tip)) (Point2D.y (project s tip));
      Stroke ] in
  drawAxes s
  = (s,
     axis "#e94560" (Point3D.Build 3 0 0)
     ++ axis "#4ecca3" (Point3D.Build 0 3 0)
     ++ axis "#00d9ff" (Point3D.Build 0 0 3),
     Ok tt).
Proof.
  intros Hd. cbv zeta. unfold drawAxes. cbv zeta.
  rewrite (bind_ok _ _ _ _ _ _ (drawLine3D_eq _ _ _ _ _ _ _ _ _)).
  rewrite (bind_ok _ _ _ _ _ _ (drawLine3D_eq _ _ _ _ _ _ _ _ _)).
  rewrite drawLine3D_eq.
  assert (E : project3D s 0 0 0
              = {| Point2D.x := canvas_width s / 2;
                   Point2D.y := canvas_height s / 2;
                   Point2D.depth := cameraDistance s |})
    by (unfold project3D; f_equal; ring).
  rewrite E. reflexivity.
Qed.

Lemma axes_start_at_the_centre_witness :
  cameraDistance (new_viz 900 700) <> 0
  /\ exists rest,
       trace_of (drawAxes (new_viz 900 700))
       = SetStrokeStyle (Literal "#e94560") :: SetLineWidth 2 :: BeginPath
         :: MoveTo (900 / 2) (700 / 2) :: rest.
Proof.
  assert (H : cameraDistance (new_viz 900 700) <> 0) by (cbn; lra).
  split; [exact H|].
  pose proof (axes_start_at_the_centre (new_viz 900 700) H) as E.
  cbv zeta in E. rewrite E. eexists. reflexivity.
Defined.
